(** * Math board game: scoreboard store and turn state machine

    A shallow embedding of [app.py] (a Flask application backed by one
    SQLite table) together with the properties of its scoreboard
    bookkeeping, its roll/answer state machine, its question import and
    its administrative guard.

    Conventions of the embedding:
    - a Python [str] is the list of its Unicode code points;
    - a Python [int] is a [Z]; SQLite INTEGER counters are [Z] as well
      (they stay far below the 64-bit range: every call adds at most one
      per listed participant);
    - the [players] table is the list of its rows in rowid order, and
      every SQL statement of the source is one function on that list;
    - the Flask session is a record with one optional field per key that
      the program stores ([None] is "key absent");
    - request handlers run in a state-and-exception monad over a [world]
      that holds the session, the database, the random source, the
      flashed messages and a trace of the calls to [record_game_result]. *)

From Stdlib Require Import ZArith QArith Qabs Qround String Ascii List Lia
  DecimalString.
From stdpp Require Import base list numbers option sorting.

Close Scope Q_scope.
Local Open Scope Z_scope.

(** ** Python strings *)

Definition pystr := list N.

(** A literal of the source, written with a Rocq string (ASCII only). *)
Definition str (s : string) : pystr :=
  map N_of_ascii (list_ascii_of_string s).

(** [str(i)] and the [{i}] of an f-string, for an integer [i]. *)
Definition str_of_int (i : Z) : pystr :=
  str (NilZero.string_of_int (Z.to_int i)).

(** [c.isspace()] for one code point: CPython's [_PyUnicode_IsWhitespace]. *)
Definition isspace (c : N) : bool :=
  ((9 <=? c) && (c <=? 13) || (28 <=? c) && (c <=? 32)
   || (c =? 133) || (c =? 160) || (c =? 5760)
   || (8192 <=? c) && (c <=? 8202)
   || (c =? 8232) || (c =? 8233) || (c =? 8239) || (c =? 8287)
   || (c =? 12288))%N.

Fixpoint lstrip (s : pystr) : pystr :=
  match s with
  | c :: s' => if isspace c then lstrip s' else s
  | [] => []
  end.

Definition rstrip (s : pystr) : pystr := rev (lstrip (rev s)).

(** [s.strip()] *)
Definition strip (s : pystr) : pystr := rstrip (lstrip s).

(** Truth value of a string, of an optional string, and [x or y]. *)
Definition nonempty (s : pystr) : bool :=
  match s with [] => false | _ :: _ => true end.

Definition truthy_str (o : option pystr) : bool :=
  match o with Some s => nonempty s | None => false end.

Definition or_else (x y : option pystr) : option pystr :=
  if truthy_str x then x else y.

(** Order of two strings under SQLite's BINARY collation: [memcmp] on the
    UTF-8 encodings, which is the lexicographic order of the code points. *)
Fixpoint str_leb (s t : pystr) : bool :=
  match s, t with
  | [], _ => true
  | _ :: _, [] => false
  | c :: s', d :: t' => (c <? d)%N || (c =? d)%N && str_leb s' t'
  end.

(** ** Persistence: the [players] table *)

Module Player.
Record t := mk {
  id : Z;
  name : pystr;
  wins : Z;
  games_played : Z;
  created_at : pystr;
  updated_at : pystr }.
End Player.

(** The table in rowid order, and the AUTOINCREMENT counter that SQLite
    keeps in [sqlite_sequence] (largest rowid ever handed out). *)
Record database := mkdb {
  players_table : list Player.t;
  sqlite_sequence : Z }.

(** [init_db] on a fresh file. *)
Definition init_db : database := mkdb [] 0.

Definition has_name (n : pystr) (r : Player.t) : bool :=
  bool_decide (Player.name r = n).

(** INSERT OR IGNORE INTO players (name, wins, games_played, created_at,
    updated_at) VALUES (n, 0, 0, now, now): the UNIQUE constraint on
    [name] turns the insert into a no-op when a row has that name. *)
Definition insert_or_ignore (now : pystr) (d : database) (n : pystr)
  : database :=
  if existsb (has_name n) (players_table d) then d
  else
    let i := sqlite_sequence d + 1 in
    mkdb (players_table d ++ [Player.mk i n 0 0 now now]) i.

(** UPDATE players SET ... WHERE name = n, for a row transformer. *)
Definition update_where_name (f : Player.t -> Player.t) (d : database)
  (n : pystr) : database :=
  mkdb ((fun r => if has_name n r then f r else r) <$> players_table d)
       (sqlite_sequence d).

Definition incr_games_played (now : pystr) (r : Player.t) : Player.t :=
  Player.mk (Player.id r) (Player.name r) (Player.wins r)
            (Player.games_played r + 1) (Player.created_at r) now.

Definition incr_wins (now : pystr) (r : Player.t) : Player.t :=
  Player.mk (Player.id r) (Player.name r) (Player.wins r + 1)
            (Player.games_played r) (Player.created_at r) now.

(** [now] is [datetime.utcnow().isoformat()], read once per call. *)
Definition record_game_result (now : pystr) (winner_name : pystr)
  (participant_names : list pystr) (d : database) : database :=
  let d1 := fold_left (insert_or_ignore now) participant_names d in
  let d2 := fold_left (update_where_name (incr_games_played now))
                      participant_names d1 in
  update_where_name (incr_wins now) d2 winner_name.

(** DELETE FROM players, and DELETE FROM players WHERE name = n. *)
Definition delete_all (d : database) : database :=
  mkdb [] (sqlite_sequence d).

Definition delete_by_name (n : pystr) (d : database) : database :=
  mkdb (List.filter (fun r => negb (has_name n r)) (players_table d))
       (sqlite_sequence d).

(** *** Observations on the table *)

Definition names (d : database) : list pystr :=
  Player.name <$> players_table d.

(** The UNIQUE constraint of the schema. *)
Definition unique_names (d : database) : Prop := NoDup (names d).

Definition find_player (n : pystr) (d : database) : option Player.t :=
  find (has_name n) (players_table d).

Definition count_rows (n : pystr) (d : database) : nat :=
  length (List.filter (has_name n) (players_table d)).

(** Counters of a name; a name without a row counts as zero, which is
    what a freshly created row holds. *)
Definition games_of (n : pystr) (d : database) : Z :=
  from_option Player.games_played 0 (find_player n d).

Definition wins_of (n : pystr) (d : database) : Z :=
  from_option Player.wins 0 (find_player n d).

(** ** Exceptions *)

(** Python exceptions that the modelled code can raise. [Abort c] is the
    HTTP exception of [abort(c)]. *)
Inductive exn :=
| KeyError | TypeError | IndexError | ZeroDivisionError
| OverflowError | CsvError | Abort (code : Z).

Inductive result (A : Type) :=
| Return (a : A)
| Raise (e : exn).
Arguments Return {A} a.
Arguments Raise {A} e.

(** ** The ranked query *)

(** SQLite REAL arithmetic (IEEE doubles) and its ROUND(X, Y) function
    are not part of the program: the query is stated over any
    implementation of them. *)
Class SqlReal := {
  real : Type;
  real_of_int : Z -> real;
  real_mul : real -> real -> real;
  real_div : real -> real -> real;
  ROUND : real -> Z -> real }.

(** A value of a result column: INTEGER or REAL. *)
Inductive sqlvalue `{SqlReal} :=
| SqlInteger (z : Z)
| SqlRealV (x : real).

(** A row of the result set: the three stored columns and the derived
    one. *)
Module Row.
Record t `{SqlReal} := mk {
  name : pystr;
  wins : Z;
  games_played : Z;
  win_rate : sqlvalue }.
End Row.

(** ORDER BY wins DESC, name ASC, as "[r1] may come before [r2]". Rows
    with equal wins and equal names do not exist under the UNIQUE
    constraint, so the order of the result is fixed by the table. *)
Definition rank_leb (r1 r2 : Player.t) : bool :=
  (Player.wins r2 <? Player.wins r1)
  || (Player.wins r1 =? Player.wins r2)
     && str_leb (Player.name r1) (Player.name r2).

Definition rank (r1 r2 : Player.t) : Prop := rank_leb r1 r2 = true.

Global Instance rank_dec r1 r2 : Decision (rank r1 r2).
Proof. unfold rank. apply _. Defined.

Section Scoreboard.
Context `{SqlReal}.

(** CASE WHEN games_played > 0
         THEN ROUND(100.0 * wins / games_played, 1) ELSE 0 END *)
Definition win_rate_of (wins games_played : Z) : sqlvalue :=
  if 0 <? games_played
  then SqlRealV
         (ROUND (real_div (real_mul (real_of_int 100) (real_of_int wins))
                          (real_of_int games_played)) 1)
  else SqlInteger 0.

(** SELECT name, wins, games_played, <win_rate> *)
Definition select_row (r : Player.t) : Row.t :=
  Row.mk _ (Player.name r) (Player.wins r) (Player.games_played r)
         (win_rate_of (Player.wins r) (Player.games_played r)).

(** LIMIT k: a negative [k] is "no upper bound" in SQLite. *)
Definition sql_limit {A} (k : Z) (l : list A) : list A :=
  if k <? 0 then l else take (Z.to_nat k) l.

(** The query of [top_scoreboard]. Binding a Python int outside the
    signed 64-bit range raises OverflowError in the sqlite3 module. The
    database is handed back untouched: the statement is a SELECT. *)
Definition top_scoreboard (limit : Z) (d : database)
  : result (list Row.t) * database :=
  if (limit <? - 2 ^ 63) || (2 ^ 63 - 1 <? limit)
  then (Raise OverflowError, d)
  else
    (Return (select_row
               <$> sql_limit limit (merge_sort rank (players_table d))),
     d).
End Scoreboard.

(** An idealised reading of the REAL operations, to run the query on
    concrete tables: exact rationals, and ROUND to the nearest multiple of
    [10^-digits], halves away from zero. *)
Definition exact_round (x : Q) (digits : Z) : Q :=
  let scale := inject_Z (10 ^ Z.max 0 digits) in
  let units := Qfloor (Qabs x * scale + (1 # 2))%Q in
  Qred (inject_Z (Z.sgn (Qnum x) * units) / scale)%Q.

Definition exact_arith : SqlReal :=
  Build_SqlReal Q inject_Z Qmult Qdiv exact_round.

(** ** Game logic: constants *)

Module Question.
Record t := mk { q : pystr; a : pystr }.
End Question.

Module Token.
Record t := mk { name : pystr; pos : Z }.
End Token.

Definition DEFAULT_QUESTIONS : list Question.t :=
  [ Question.mk (str "2 + 2") (str "4");
    Question.mk (str "9 " ++ [215%N] ++ str " 4") (str "36");
    Question.mk (str "7 " ++ [215%N] ++ str " 8") (str "56");
    Question.mk (str "9 " ++ [247%N] ++ str " 3") (str "3");
    Question.mk ([8730%N] ++ str "81") (str "9");
    Question.mk ([8730%N] ++ str "49") (str "7");
    Question.mk (str "12 " ++ [247%N] ++ str " 4") (str "3");
    Question.mk (str "15 + 5") (str "20");
    Question.mk (str "11 " ++ [215%N] ++ str " 8") (str "88");
    Question.mk (str "14" ++ [178%N]) (str "196") ].

Definition BOARD_SIZE : Z := 24.
Definition MAX_PLAYERS : Z := 4.
Definition MAX_QUESTIONS_IN_SESSION : Z := 300.

(** ** The session and the world of a request *)

Record session := mksession {
  players : option (list Token.t);
  turn : option Z;
  awaiting_answer : option bool;
  current_question : option (option Question.t);
  last_roll : option (option Z);
  message : option pystr;
  questions : option (list Question.t) }.

(** [session.clear()] *)
Definition empty_session : session :=
  mksession None None None None None None None.

Definition set_players v s :=
  mksession (Some v) (turn s) (awaiting_answer s) (current_question s)
            (last_roll s) (message s) (questions s).
Definition set_turn v s :=
  mksession (players s) (Some v) (awaiting_answer s) (current_question s)
            (last_roll s) (message s) (questions s).
Definition set_awaiting_answer v s :=
  mksession (players s) (turn s) (Some v) (current_question s)
            (last_roll s) (message s) (questions s).
Definition set_current_question v s :=
  mksession (players s) (turn s) (awaiting_answer s) (Some v)
            (last_roll s) (message s) (questions s).
Definition set_last_roll v s :=
  mksession (players s) (turn s) (awaiting_answer s) (current_question s)
            (Some v) (message s) (questions s).
Definition set_message v s :=
  mksession (players s) (turn s) (awaiting_answer s) (current_question s)
            (last_roll s) (Some v) (questions s).
Definition set_questions v s :=
  mksession (players s) (turn s) (awaiting_answer s) (current_question s)
            (last_roll s) (message s) (Some v).

(** The random source: an unbounded supply of draws and a cursor. Every
    call of [random.randint] or [random.choice] takes one draw. *)
Record random := mkrandom {
  draws : nat -> N;
  cursor : nat }.

(** What a handler can read and change. [sess] holds the keys that the
    program itself stores in the session. [flashes] is the log of the
    messages passed to [flash], the user-visible warnings (Flask queues
    them under a key of its own, which the program never reads).
    [recorded] is the trace of the calls to [record_game_result] (winner,
    participants), kept to count them. [utcnow] is the clock reading of
    the request. *)
Record world := mkworld {
  sess : session;
  db : database;
  rng : random;
  utcnow : pystr;
  flashes : list pystr;
  recorded : list (pystr * list pystr) }.

Definition with_sess (s : session) (w : world) : world :=
  mkworld s (db w) (rng w) (utcnow w) (flashes w) (recorded w).

(** State and exceptions: a computation returns or raises, and hands back
    the world as it is at that point. *)
Definition M (A : Type) : Type := world -> result A * world.

Global Instance M_ret : MRet M := fun A a w => (Return a, w).
Global Instance M_bind : MBind M := fun A B k m w =>
  match m w with
  | (Return a, w') => k a w'
  | (Raise e, w') => (Raise e, w')
  end.

Definition raise {A} (e : exn) : M A := fun w => (Raise e, w).

Definition get_session : M session := fun w => (Return (sess w), w).

Definition modify_session (f : session -> session) : M unit :=
  fun w => (Return tt, with_sess (f (sess w)) w).

(** [session[key]] raises KeyError when the key is absent. *)
Definition getitem {A} (field : session -> option A) : M A :=
  s ← get_session;
  match field s with
  | Some v => mret v
  | None => raise KeyError
  end.

Definition flash (msg : pystr) : M unit := fun w =>
  (Return tt,
   mkworld (sess w) (db w) (rng w) (utcnow w) (flashes w ++ [msg])
           (recorded w)).

Definition next_draw : M N := fun w =>
  (Return (draws (rng w) (cursor (rng w))),
   mkworld (sess w) (db w) (mkrandom (draws (rng w)) (S (cursor (rng w))))
           (utcnow w) (flashes w) (recorded w)).

(** [random.randint(lo, hi)] for [lo <= hi]. *)
Definition randint (lo hi : Z) : M Z :=
  x ← next_draw;
  mret (lo + Z.of_N x `mod` (hi - lo + 1)).

(** [random.choice(l)]: IndexError on an empty list. *)
Definition choice {A} (l : list A) : M A :=
  match l with
  | [] => raise IndexError
  | _ :: _ =>
      x ← next_draw;
      match l !! (N.to_nat x `mod` length l)%nat with
      | Some v => mret v
      | None => raise IndexError
      end
  end.

(** The call of [record_game_result] from a handler. *)
Definition call_record_game_result (winner_name : pystr)
  (participant_names : list pystr) : M unit := fun w =>
  (Return tt,
   mkworld (sess w)
           (record_game_result (utcnow w) winner_name participant_names
                               (db w))
           (rng w) (utcnow w) (flashes w)
           (recorded w ++ [(winner_name, participant_names)])).

(** ** Game logic: handlers *)

(** Where a handler sends the client: every game handler redirects to
    the index page; the administrative routes answer with a text. *)
Inductive response :=
| redirect_index
| Body (text : pystr).

(** Truth value of [session.get("players")] and of
    [session.get("awaiting_answer")]. *)
Definition truthy_players (o : option (list Token.t)) : bool :=
  match o with Some (_ :: _) => true | _ => false end.

Definition truthy_flag (o : option bool) : bool :=
  match o with Some b => b | None => false end.

(** [x or 0] for the pending roll. *)
Definition or_zero (o : option Z) : Z :=
  match o with Some z => z | None => 0 end.

Definition new_game : M unit :=
  modify_session (fun _ =>
    mksession (Some []) (Some 0) (Some false) (Some None) (Some None)
              (Some (str "Set up players to start."))
              (Some DEFAULT_QUESTIONS)).

(** [current_player()] as the index of the player in
    [session["players"]]: the handlers mutate that very dictionary, so
    the model keeps the place rather than a copy. [None] is Python's
    [None]. The modulus is Python's (sign of the divisor), as [Z.modulo]. *)
Definition current_player_index (s : session) : option nat :=
  match players s with
  | Some (p :: ps) =>
      Some (Z.to_nat (default 0 (turn s) `mod` Z.of_nat (length (p :: ps))))
  | _ => None
  end.

Definition current_player (s : session) : option Token.t :=
  i ← current_player_index s;
  ps ← players s;
  ps !! i.

(** The player dictionary at index [i] of [session["players"]]. *)
Definition player_at (i : nat) (s : session) : option Token.t :=
  ps ← players s;
  ps !! i.

(** [current_player()['name']]: TypeError on [None]. *)
Definition current_player_name : M pystr :=
  s ← get_session;
  match current_player s with
  | Some p => mret (Token.name p)
  | None => raise TypeError
  end.

Definition next_turn : M unit :=
  t ← getitem turn;
  ps ← getitem players;
  match ps with
  | [] => raise ZeroDivisionError
  | _ :: _ => modify_session (set_turn ((t + 1) `mod` Z.of_nat (length ps)))
  end.

(** The winner that [index] shows: the first player, in session order,
    whose position has reached the board size. *)
Definition winner (s : session) : option pystr :=
  Token.name <$>
    find (fun p => BOARD_SIZE <=? Token.pos p) (default [] (players s)).

(** [range(lo, hi)] *)
Definition range (lo hi : Z) : list Z := seqZ lo (hi - lo).

(** [request.form]: the submitted fields in order; [get] returns the
    first value of a key, or the default. *)
Definition form := list (pystr * pystr).

Definition form_get (f : form) (key otherwise : pystr) : pystr :=
  match find (fun kv => bool_decide (kv.1 = key)) f with
  | Some kv => kv.2
  | None => otherwise
  end.

(** The loop of [setup] that collects the names. *)
Definition collect_names (f : form) : list pystr :=
  fold_left
    (fun names i =>
       let name := strip (form_get f (str "name" ++ str_of_int i) []) in
       if nonempty name then names ++ [take 20 name] else names)
    (range 1 (MAX_PLAYERS + 1)) [].

Definition setup (f : form) : M response :=
  let names := collect_names f in
  if Z.of_nat (length names) =? 0 then
    flash (str "Enter at least one player name.");;
    mret redirect_index
  else if MAX_PLAYERS <? Z.of_nat (length names) then
    flash (str "Maximum 4 players.");;
    mret redirect_index
  else
    modify_session (set_players ((fun n => Token.mk n 0) <$> names));;
    modify_session (set_turn 0);;
    modify_session
      (set_message (str "Game ready! " ++ default [] (head names)
                    ++ str "&#39;s turn. Roll to start."));;
    mret redirect_index.

Definition roll : M response :=
  s ← get_session;
  if negb (truthy_players (players s)) then
    flash (str "Set up players first.");;
    mret redirect_index
  else if truthy_flag (awaiting_answer s) then
    mret redirect_index
  else
    roll ← randint 1 6;
    modify_session (set_last_roll (Some roll));;
    s ← get_session;
    question ← choice (default DEFAULT_QUESTIONS (questions s));
    modify_session (set_current_question (Some question));;
    modify_session (set_awaiting_answer true);;
    name ← current_player_name;
    modify_session
      (set_message (name ++ str " rolled a " ++ str_of_int roll
                    ++ str ". Answer to move!"));;
    mret redirect_index.

(** [player["pos"] = v] for the player at index [i] of the session. *)
Definition set_pos (i : nat) (v : Z) (s : session) : session :=
  match players s with
  | Some ps =>
      match ps !! i with
      | Some p => set_players (<[i := Token.mk (Token.name p) v]> ps) s
      | None => s
      end
  | None => s
  end.

(** [answer], for the submitted [answer] field ([None] when the form has
    none). *)
Definition answer (form_answer : option pystr) : M response :=
  s ← get_session;
  if negb (truthy_flag (awaiting_answer s)) then
    mret redirect_index
  else
    let user_answer := strip (default [] form_answer) in
    cq ← getitem current_question;
    match cq with
    | None => raise TypeError
    | Some question =>
        let correct_answer := strip (Question.a question) in
        lr ← getitem last_roll;
        let roll := or_zero lr in
        match current_player_index s, current_player s with
        | Some i, Some player =>
            (if bool_decide (user_answer = correct_answer) then
               modify_session
                 (set_pos i (Z.min BOARD_SIZE (Token.pos player + roll)));;
               modify_session
                 (set_message (str "Correct, " ++ Token.name player
                               ++ str "! Move forward " ++ str_of_int roll
                               ++ str "."))
             else
               modify_session
                 (set_pos i (Z.max 0 (Token.pos player - 1)));;
               modify_session
                 (set_message (str "Oops, " ++ Token.name player
                               ++ str "! Correct was " ++ correct_answer
                               ++ str ". Move back 1.")));;
            modify_session (set_awaiting_answer false);;
            modify_session (set_current_question None);;
            modify_session (set_last_roll None);;
            s' ← get_session;
            match player_at i s' with
            | None => raise TypeError
            | Some player' =>
                if BOARD_SIZE <=? Token.pos player' then
                  ps ← getitem players;
                  let participant_names := Token.name <$> ps in
                  call_record_game_result (Token.name player')
                                          participant_names;;
                  flash (str "Recorded win for " ++ Token.name player'
                         ++ str "!");;
                  mret redirect_index
                else
                  next_turn;;
                  name ← current_player_name;
                  m ← getitem message;
                  modify_session
                    (set_message (m ++ str " Next: " ++ name ++ str "."));;
                  mret redirect_index
            end
        | _, _ => raise TypeError
        end
    end.

Definition reset : M response :=
  new_game;;
  mret redirect_index.

(** ** Question import *)

(** *** The [csv] reader of the Python library

    [csv.DictReader(io.StringIO(text))] with the default [excel] dialect:
    comma as delimiter, the double quote as quote character (doubled
    inside a quoted field), no escape character, not strict. The reader
    is the state machine of CPython's [Modules/_csv.c]. *)

Definition LF : N := 10%N.
Definition CR : N := 13%N.
Definition COMMA : N := 44%N.
Definition QUOTE : N := 34%N.

(** Iterating over [io.StringIO(text)]: lines end at [\n] only (the
    default [newline] of StringIO), and keep their terminator. *)
Fixpoint readlines_from (cur text : pystr) : list pystr :=
  match text with
  | [] => if nonempty cur then [cur] else []
  | c :: text' =>
      if (c =? LF)%N then (cur ++ [c]) :: readlines_from [] text'
      else readlines_from (cur ++ [c]) text'
  end.

Definition readlines (text : pystr) : list pystr := readlines_from [] text.

Inductive parser_state :=
| START_RECORD | START_FIELD | IN_FIELD | IN_QUOTED_FIELD
| QUOTE_IN_QUOTED_FIELD | EAT_CRNL.

Global Instance parser_state_eq_dec : EqDecision parser_state.
Proof. solve_decision. Defined.

(** The fields saved so far for the current record, and the characters
    of the field being read. *)
Record reader := mkreader {
  state : parser_state;
  fields : list pystr;
  field : pystr }.

(** [csv.field_size_limit()] *)
Definition field_limit : Z := 131072.

Definition parse_reset : reader := mkreader START_RECORD [] [].

Definition parse_save_field (st : parser_state) (r : reader) : reader :=
  mkreader st (fields r ++ [field r]) [].

(** Raises [csv.Error] ([None]) when the field is full. *)
Definition parse_add_char (st : parser_state) (c : N) (r : reader)
  : option reader :=
  if field_limit <=? Z.of_nat (length (field r)) then None
  else Some (mkreader st (fields r) (field r ++ [c])).

Definition is_newline (c : N) : bool := (c =? LF)%N || (c =? CR)%N.

(** One step of the machine on a character of the line ([Some c]) or on
    the end of the line ([None]); the result [None] is [csv.Error]. *)
Definition parse_process_char (r : reader) (c : option N) : option reader :=
  let start_field :=
    match c with
    | None => Some (parse_save_field START_RECORD r)
    | Some ch =>
        if is_newline ch then Some (parse_save_field EAT_CRNL r)
        else if (ch =? QUOTE)%N
        then Some (mkreader IN_QUOTED_FIELD (fields r) (field r))
        else if (ch =? COMMA)%N then Some (parse_save_field START_FIELD r)
        else parse_add_char IN_FIELD ch r
    end in
  match state r with
  | START_RECORD =>
      match c with
      | None => Some r
      | Some ch =>
          if is_newline ch
          then Some (mkreader EAT_CRNL (fields r) (field r))
          else start_field
      end
  | START_FIELD => start_field
  | IN_FIELD =>
      match c with
      | None => Some (parse_save_field START_RECORD r)
      | Some ch =>
          if is_newline ch then Some (parse_save_field EAT_CRNL r)
          else if (ch =? COMMA)%N then Some (parse_save_field START_FIELD r)
          else parse_add_char IN_FIELD ch r
      end
  | IN_QUOTED_FIELD =>
      match c with
      | None => Some r
      | Some ch =>
          if (ch =? QUOTE)%N
          then Some (mkreader QUOTE_IN_QUOTED_FIELD (fields r) (field r))
          else parse_add_char IN_QUOTED_FIELD ch r
      end
  | QUOTE_IN_QUOTED_FIELD =>
      match c with
      | None => Some (parse_save_field START_RECORD r)
      | Some ch =>
          if (ch =? QUOTE)%N then parse_add_char IN_QUOTED_FIELD ch r
          else if (ch =? COMMA)%N then Some (parse_save_field START_FIELD r)
          else if is_newline ch then Some (parse_save_field EAT_CRNL r)
          else parse_add_char IN_FIELD ch r
      end
  | EAT_CRNL =>
      match c with
      | None => Some (mkreader START_RECORD (fields r) (field r))
      | Some ch => if is_newline ch then Some r else None
      end
  end.

(** The characters of one line, then the end of line. *)
Fixpoint parse_line (r : reader) (line : pystr) : option reader :=
  match line with
  | [] => parse_process_char r None
  | c :: line' =>
      match parse_process_char r (Some c) with
      | Some r' => parse_line r' line'
      | None => None
      end
  end.

(** All the records of [csv.reader(lines)], by repeated [next]: a record
    ends with the line that brings the machine back to [START_RECORD];
    input that ends inside a quoted field closes the record there. *)
Fixpoint reader_rows (r : reader) (lines : list pystr)
  : option (list (list pystr)) :=
  match lines with
  | [] =>
      if nonempty (field r) || bool_decide (state r = IN_QUOTED_FIELD)
      then Some [fields r ++ [field r]]
      else Some []
  | line :: lines' =>
      match parse_line r line with
      | None => None
      | Some r' =>
          if bool_decide (state r' = START_RECORD)
          then cons (fields r') <$> reader_rows parse_reset lines'
          else reader_rows r' lines'
      end
  end.

(** A row of [DictReader]: the bindings in the order they are made, a
    later binding of a key replacing an earlier one; [None] is the
    [restval] of a missing column. (Surplus columns go under the key
    [None], which the program never reads; they are left out.) *)
Definition dictrow := list (pystr * option pystr).

Definition make_dictrow (fieldnames row : list pystr) : dictrow :=
  zip fieldnames (Some <$> row)
  ++ ((fun key => (key, None)) <$> drop (length row) fieldnames).

(** [row.get(key)] *)
Definition dict_get (d : dictrow) (key : pystr) : option pystr :=
  fold_left
    (fun found kv => if bool_decide (kv.1 = key) then kv.2 else found)
    d None.

(** [csv.DictReader(io.StringIO(text))], read to the end: the first
    record is the header, and empty records are skipped. *)
Definition DictReader (text : pystr) : result (list dictrow) :=
  match reader_rows parse_reset (readlines text) with
  | None => Raise CsvError
  | Some [] => Return []
  | Some (fieldnames :: rows) =>
      Return (make_dictrow fieldnames
                <$> List.filter (fun row => negb (bool_decide (row = [])))
                                rows)
  end.

(** *** [parse_csv_text] *)

(** [(row.get(k1) or row.get(k2) or '').strip()] *)
Definition column (row : dictrow) (k1 k2 : pystr) : pystr :=
  strip (default [] (or_else (or_else (dict_get row k1) (dict_get row k2))
                             (Some []))).

Definition parse_csv_text (text : pystr) : result (list Question.t) :=
  let text := strip text in
  if negb (nonempty text) then Return []
  else
    match DictReader text with
    | Raise e => Raise e
    | Return rows =>
        Return
          (fold_left
             (fun items row =>
                let q := column row (str "q") (str "question") in
                let a := column row (str "a") (str "answer") in
                if nonempty q && nonempty a
                then items ++ [Question.mk q a]
                else items)
             rows [])
    end.

(** ** Administrative routes *)

(** What the routes read from the request: [request.args.get("token")],
    [request.headers.get("X-Admin-Token")] and [request.args.get("name")]. *)
Record request := mkrequest {
  args_token : option pystr;
  header_token : option pystr;
  args_name : option pystr }.

(** The token that [require_admin] compares. *)
Definition supplied_token (req : request) : option pystr :=
  or_else (args_token req) (header_token req).

(** [ADMIN_TOKEN] is [os.environ.get("ADMIN_TOKEN")], read once at
    import: [None] when the variable is not set. *)
Definition require_admin (ADMIN_TOKEN : option pystr) (req : request)
  : M unit :=
  let token := supplied_token req in
  if negb (truthy_str ADMIN_TOKEN) || negb (bool_decide (token = ADMIN_TOKEN))
  then raise (Abort 403)
  else mret tt.

Definition execute (stmt : database -> database) : M unit := fun w =>
  (Return tt,
   mkworld (sess w) (stmt (db w)) (rng w) (utcnow w) (flashes w)
           (recorded w)).

Definition admin_reset (ADMIN_TOKEN : option pystr) (req : request)
  : M response :=
  require_admin ADMIN_TOKEN req;;
  execute delete_all;;
  mret (Body ([9989%N] ++ str " Scoreboard cleared.")).

Definition admin_delete_player (ADMIN_TOKEN : option pystr) (req : request)
  : M response :=
  require_admin ADMIN_TOKEN req;;
  let name := strip (default [] (or_else (args_name req) (Some []))) in
  if negb (nonempty name) then raise (Abort 400)
  else
    execute (delete_by_name name);;
    mret (Body ([128465%N; 65039%N] ++ str " Deleted player: " ++ name)).

(** ** Vocabulary of the statements *)

(** Number of times [n] is listed in [l]. *)
Definition occurrences (n : pystr) (l : list pystr) : nat :=
  length (List.filter (fun m => bool_decide (m = n)) l).

(** One call of [record_game_result]: the clock reading and the two
    arguments. *)
Record call := mkcall {
  call_now : pystr;
  call_winner : pystr;
  call_participants : list pystr }.

Definition run_call (d : database) (c : call) : database :=
  record_game_result (call_now c) (call_winner c) (call_participants c) d.

(** A sequence of calls, oldest first. *)
Definition run_calls (cs : list call) (d : database) : database :=
  fold_left run_call cs d.

(** Over a sequence of calls: how often [n] was listed as a participant,
    and in how many calls [n] took part. *)
Definition total_occurrences (n : pystr) (cs : list call) : Z :=
  fold_right (fun c acc => Z.of_nat (occurrences n (call_participants c)) + acc)
             0 cs.

Definition games_with (n : pystr) (cs : list call) : Z :=
  Z.of_nat
    (length (List.filter
               (fun c => bool_decide (n ∈ call_participants c)) cs)).

(** Both loops of [parse_csv_text] keep a row when this is [Some]. *)
Definition complete_item (row : dictrow) : option Question.t :=
  let q := column row (str "q") (str "question") in
  let a := column row (str "a") (str "answer") in
  if nonempty q && nonempty a then Some (Question.mk q a) else None.

(** The winner of a call is one of its participants. *)
Definition winner_takes_part (c : call) : Prop :=
  call_winner c ∈ call_participants c.

(** The position that [answer] writes: forward by the roll up to the
    board size on a match, back by one down to zero otherwise. *)
Definition moved (correct : bool) (p r : Z) : Z :=
  if correct then Z.min BOARD_SIZE (p + r) else Z.max 0 (p - 1).

(** The world after a handler has run. *)
Definition exec {A} (m : M A) (w : world) : world := (m w).2.

(** [k] turns, each a roll followed by the same submitted answer. *)
Fixpoint rounds (k : nat) (ans : option pystr) (w : world) : world :=
  match k with
  | O => w
  | S k' => rounds k' ans (exec (answer ans) (exec roll w))
  end.

(** ** Sample data *)

(** A first visit: an empty session, a fresh database, and a random
    source whose every draw is 5 (the die shows 6; the question drawn
    from the default pool is the sixth, with answer 7). *)
Definition first_visit : world :=
  mkworld empty_session init_db (mkrandom (fun _ => 5%N) 0)
          (str "2024-01-01T00:00:00") [] [].

Definition started_world : world := exec new_game first_visit.

Definition five_names : form :=
  [ (str "name1", str "Ann"); (str "name2", str "Bob");
    (str "name3", str "Cy"); (str "name4", str "Dee");
    (str "name5", str "Eve") ].

(** Two players who entered the same name. *)
Definition two_als : form :=
  [ (str "name1", str "Al"); (str "name2", str " Al ") ].

(** Al stands on 22 and has rolled a 5; the question is the first of the
    default pool. *)
Definition near_finish : world :=
  mkworld
    (mksession (Some [Token.mk (str "Al") 22; Token.mk (str "Bo") 3])
               (Some 0) (Some true)
               (Some (Some (Question.mk (str "2 + 2") (str "4"))))
               (Some (Some 5))
               (Some (str "Al rolled a 5. Answer to move!"))
               (Some DEFAULT_QUESTIONS))
    init_db (mkrandom (fun _ => 5%N) 0) (str "2024-01-01T00:00:00") [] [].

Definition sample_import : pystr :=
  str "question,answer" ++ [LF] ++ str "2+2,4" ++ [LF] ++ str "3+3,"
  ++ [LF] ++ str "5+5,10".

Definition sample_table (now : pystr) : database :=
  mkdb [ Player.mk 1 (str "A") 3 4 now now;
         Player.mk 2 (str "B") 3 3 now now;
         Player.mk 3 (str "C") 5 9 now now ] 3.

(** A request against a store that holds the sample table. *)
Definition stored_world : world :=
  mkworld empty_session (sample_table (str "2024-01-01T00:00:00"))
          (mkrandom (fun _ => 5%N) 0) (str "2024-06-01T00:00:00") [] [].

(** ** Question upload *)

(** A value or an exception computed outside the world. *)
Definition lift_result {A} (r : result A) : M A := fun w => (r, w).

(** [upload_questions]. [file_text] is the decoded content of the
    uploaded file, [Some] when the request carries a file with a file
    name; [pasted_field] is the [pasted] form field, when present. *)
Definition upload_questions (file_text pasted_field : option pystr)
  : M response :=
  from_file ←
    match file_text with
    | Some data => lift_result (parse_csv_text data)
    | None => mret []
    end;
  let pasted := strip (default [] pasted_field) in
  from_paste ←
    (if nonempty pasted then lift_result (parse_csv_text pasted)
     else mret []);
  let new_items := from_file ++ from_paste in
  match new_items with
  | [] =>
      flash (str "No questions found. Use CSV with headers q,a or "
             ++ str "question,answer.");;
      mret redirect_index
  | _ :: _ =>
      s ← get_session;
      let qlist := default [] (questions s) in
      let combined :=
        take (Z.to_nat MAX_QUESTIONS_IN_SESSION) (qlist ++ new_items) in
      modify_session (set_questions combined);;
      flash (str "Loaded " ++ str_of_int (Z.of_nat (length new_items))
             ++ str " questions. Now "
             ++ str_of_int (Z.of_nat (length combined)) ++ str " total.");;
      mret redirect_index
  end.

(** ** The index page *)

Section Index.
Context `{SqlReal}.

(** The values that [index] hands to the template. *)
Record page := mkpage {
  page_players : list Token.t;
  page_turn : Z;
  page_awaiting_answer : bool;
  page_current_question : option Question.t;
  page_last_roll : option Z;
  page_message : pystr;
  page_board_size : Z;
  page_questions_count : Z;
  page_scoreboard : list Row.t;
  page_winner : option pystr }.

(** The call of [top_scoreboard] from a handler. *)
Definition call_top_scoreboard (limit : Z) : M (list Row.t) := fun w =>
  let (rows, d) := top_scoreboard limit (db w) in
  (rows, mkworld (sess w) d (rng w) (utcnow w) (flashes w) (recorded w)).

Definition index : M page :=
  s ← get_session;
  match players s with
  | None => new_game
  | Some _ => mret tt
  end;;
  ps ← getitem players;
  t ← getitem turn;
  aw ← getitem awaiting_answer;
  s ← get_session;
  scoreboard ← call_top_scoreboard 50;
  mret (mkpage ps t aw
               (mjoin (current_question s)) (mjoin (last_roll s))
               (default [] (message s)) BOARD_SIZE
               (Z.of_nat (length (default [] (questions s))))
               scoreboard
               (Token.name <$> find (fun p => BOARD_SIZE <=? Token.pos p) ps)).

(** ** Requests in sequence *)

(** One request of a client. *)
Inductive action :=
| Visit
| Setup (f : form)
| Roll
| Answer (a : option pystr)
| Reset
| Upload (file_text pasted_field : option pystr).

Definition handle (a : action) : M unit :=
  match a with
  | Visit => index;; mret tt
  | Setup f => setup f;; mret tt
  | Roll => roll;; mret tt
  | Answer ans => answer ans;; mret tt
  | Reset => reset;; mret tt
  | Upload file_text pasted_field =>
      upload_questions file_text pasted_field;; mret tt
  end.

(** The world after a sequence of requests, oldest first; a request that
    raises leaves the world as it was when it raised. *)
Definition serve (acts : list action) (w : world) : world :=
  fold_left (fun w a => exec (handle a) w) acts w.
End Index.

(** ** Vocabulary of the further statements *)

(** A well-formed token: on the board, with a name of 1 to 20
    characters. *)
Definition token_ok (p : Token.t) : Prop :=
  0 <= Token.pos p <= BOARD_SIZE
  /\ Token.name p <> []
  /\ (length (Token.name p) <= 20)%nat.

(** What the handlers keep true of a session: at most four well-formed
    tokens; with players stored, a stored turn that indexes one of them;
    a pending answer only with players, a pending question and a pending
    roll of 1 to 6; a stored pool that is neither empty nor above the
    cap. *)
Definition consistent (s : session) : Prop :=
  (forall ps, players s = Some ps ->
     (length ps <= 4)%nat /\ Forall token_ok ps
     /\ exists t, turn s = Some t
                  /\ (ps <> [] -> 0 <= t < Z.of_nat (length ps)))
  /\ (truthy_flag (awaiting_answer s) = true ->
      truthy_players (players s) = true
      /\ exists q r, current_question s = Some (Some q)
                     /\ last_roll s = Some (Some r) /\ 1 <= r <= 6)
  /\ (forall qs, questions s = Some qs ->
        qs <> [] /\ Z.of_nat (length qs) <= MAX_QUESTIONS_IN_SESSION).

(** Sum of the [wins] column. *)
Definition total_wins (d : database) : Z :=
  fold_right (fun r acc => Player.wins r + acc) 0 (players_table d).

(** A string without leading or trailing whitespace, and not empty. *)
Definition trimmed (s : pystr) : bool :=
  match s with
  | [] => false
  | c :: _ => negb (isspace c) && negb (isspace (List.last s c))
  end.

(** A field that CSV text holds as it is: no comma, no double quote, no
    line break, within the field size limit, and trimmed. *)
Definition plain_char (c : N) : bool :=
  negb (is_newline c) && negb (c =? COMMA)%N && negb (c =? QUOTE)%N.

Definition plain_field (s : pystr) : Prop :=
  trimmed s = true
  /\ Forall (fun c => plain_char c = true) s
  /\ Z.of_nat (length s) <= field_limit.

(** Two-column CSV text: a header line, then one line per item, lines
    separated by a line feed. *)
Definition csv_of_questions (header_q header_a : pystr)
  (items : list Question.t) : pystr :=
  header_q ++ [COMMA] ++ header_a
  ++ concat ((fun it => LF :: Question.q it ++ [COMMA] ++ Question.a it)
               <$> items).

(** A session on which every handler runs: consistent, and holding the
    key [awaiting_answer], which [index] reads with [session[...]]. *)
Definition started (s : session) : Prop :=
  consistent s /\ awaiting_answer s <> None.

(** The items that an upload submits: those of the file, then those of
    the pasted text. *)
Definition submitted_items (file_text pasted_field : option pystr)
  : result (list Question.t) :=
  match
    match file_text with
    | Some data => parse_csv_text data
    | None => Return []
    end
  with
  | Raise e => Raise e
  | Return from_file =>
      let pasted := strip (default [] pasted_field) in
      match (if nonempty pasted then parse_csv_text pasted else Return [])
      with
      | Raise e => Raise e
      | Return from_paste => Return (from_file ++ from_paste)
      end
  end.

(** Sum of the [games_played] column. *)
Definition total_games (d : database) : Z :=
  fold_right (fun r acc => Player.games_played r + acc) 0 (players_table d).

(** Number of names listed as participants over a sequence of calls. *)
Definition total_listings (cs : list call) : Z :=
  fold_right (fun c acc => Z.of_nat (length (call_participants c)) + acc) 0 cs.

(** The [created_at] of [n]'s row, or [now] when [n] has no row. *)
Definition created_of (now n : pystr) (d : database) : pystr :=
  from_option Player.created_at now (find_player n d).

(** [n] has a row, last updated at [now]. *)
Definition touched (now n : pystr) (d : database) : Prop :=
  exists r, find_player n d = Some r /\ Player.updated_at r = now.

(** Text without comma, double quote or line break. *)
Definition plain (s : pystr) : Prop := Forall (fun c => plain_char c = true) s.

Definition no_line_feed (s : pystr) : Prop :=
  Forall (fun c => (c =? LF)%N = false) s.

(** The lines that [io.StringIO] yields for [cur] followed by the lines
    [rest], joined by line feeds: every line but the last keeps its line
    feed. *)
Fixpoint lines_of (cur : pystr) (rest : list pystr) : list pystr :=
  match rest with
  | [] => [cur]
  | l :: rest' => (cur ++ [LF]) :: lines_of l rest'
  end.

Definition field_pair (it : Question.t) : pystr * pystr :=
  (Question.q it, Question.a it).

(** ** Further sample data *)

(** The started session after two players named Al are set up. *)
Definition ready_world : world := exec (setup two_als) started_world.

(** The sample table, stored in another order. *)
Definition shuffled_table (now : pystr) : database :=
  mkdb [ Player.mk 3 (str "C") 5 9 now now;
         Player.mk 1 (str "A") 3 4 now now;
         Player.mk 2 (str "B") 3 3 now now ] 3.

(** Two recorded games; the second lists Bo twice. *)
Definition two_games : list call :=
  [ mkcall (str "t0") (str "Al") [str "Al"; str "Bo"];
    mkcall (str "t1") (str "Bo") [str "Bo"; str "Cy"; str "Bo"] ].

(** A request that carries the token in its header and names player A. *)
Definition secret_request : request :=
  mkrequest None (Some (str "s3cret")) (Some (str " A ")).

(** The complete rows of [sample_import]. *)
Definition two_items : list Question.t :=
  [Question.mk (str "2+2") (str "4"); Question.mk (str "5+5") (str "10")].

(** * Properties of the scoreboard store *)

Section Store.
Implicit Types (d : database) (n m w now : pystr) (ps : list pystr)
  (r : Player.t) (l : list Player.t).

Lemma has_name_true n r : has_name n r = true <-> Player.name r = n.
Proof. unfold has_name. apply bool_decide_eq_true. Qed.

Lemma has_name_false n r : has_name n r = false <-> Player.name r <> n.
Proof. unfold has_name. apply bool_decide_eq_false. Qed.

Lemma find_has_name_None n l :
  find (has_name n) l = None <-> n ∉ Player.name <$> l.
Proof.
  induction l as [|r l IH]; simpl.
  - split; [intros _; apply not_elem_of_nil | done].
  - rewrite not_elem_of_cons. destruct (has_name n r) eqn:E.
    + apply has_name_true in E. split; [done | intros [? _]; congruence].
    + apply has_name_false in E. rewrite IH. split; [auto | tauto].
Qed.

Lemma find_has_name_Some n l r :
  find (has_name n) l = Some r -> Player.name r = n /\ r ∈ l.
Proof.
  intros Hf. apply find_some in Hf as [Hin Hn].
  split; [by apply has_name_true | by apply list_elem_of_In].
Qed.

Lemma find_player_name n d r :
  find_player n d = Some r -> Player.name r = n.
Proof. intros Hf. by apply find_has_name_Some in Hf as [? _]. Qed.

Lemma find_player_None n d : find_player n d = None <-> n ∉ names d.
Proof. apply find_has_name_None. Qed.

Lemma find_player_is_Some n d : is_Some (find_player n d) <-> n ∈ names d.
Proof.
  rewrite <- not_eq_None_Some, find_player_None.
  destruct (decide (n ∈ names d)); tauto.
Qed.

(** Rows with a given name in a table with unique names. *)
Lemma count_rows_unique n d :
  unique_names d -> n ∈ names d -> count_rows n d = 1%nat.
Proof.
  unfold unique_names, names, count_rows.
  induction (players_table d) as [|r l IH]; simpl; intros Hnd Hin.
  - by apply elem_of_nil in Hin.
  - apply NoDup_cons in Hnd as [Hr Hnd].
    destruct (has_name n r) eqn:E; simpl.
    + apply has_name_true in E. subst n. f_equal.
      clear IH Hin Hnd. induction l as [|r' l IH]; [done|].
      simpl in *. apply not_elem_of_cons in Hr as [Hne Hr].
      destruct (has_name (Player.name r) r') eqn:E'.
      * apply has_name_true in E'. congruence.
      * auto.
    + apply has_name_false in E. apply elem_of_cons in Hin as [->|Hin]; [done|].
      auto.
Qed.

Lemma count_rows_absent n d : n ∉ names d -> count_rows n d = 0%nat.
Proof.
  unfold names, count_rows.
  induction (players_table d) as [|r l IH]; simpl; [done|].
  intros [Hne Hl]%not_elem_of_cons.
  destruct (has_name n r) eqn:E; [apply has_name_true in E; congruence | auto].
Qed.

(** *** INSERT OR IGNORE *)

Lemma existsb_has_name n l :
  existsb (has_name n) l = true <-> n ∈ Player.name <$> l.
Proof.
  rewrite existsb_exists, list_elem_of_fmap. split.
  - intros (r & Hin & Hn). exists r. split.
    + symmetry. by apply has_name_true.
    + by apply list_elem_of_In.
  - intros (r & -> & Hin). exists r. split.
    + by apply list_elem_of_In.
    + by apply has_name_true.
Qed.

Lemma insert_or_ignore_present now d n :
  n ∈ names d -> insert_or_ignore now d n = d.
Proof.
  intros Hin. unfold insert_or_ignore.
  by rewrite (proj2 (existsb_has_name n _) Hin).
Qed.

Lemma insert_or_ignore_absent now d n :
  n ∉ names d ->
  insert_or_ignore now d n =
  mkdb (players_table d ++ [Player.mk (sqlite_sequence d + 1) n 0 0 now now])
       (sqlite_sequence d + 1).
Proof.
  intros Hin. unfold insert_or_ignore.
  destruct (existsb (has_name n) (players_table d)) eqn:E; [|done].
  by apply existsb_has_name in E.
Qed.

Lemma names_insert_or_ignore now d n m :
  m ∈ names (insert_or_ignore now d n) <-> m ∈ names d \/ m = n.
Proof.
  destruct (decide (n ∈ names d)) as [Hin|Hin].
  - rewrite insert_or_ignore_present by done. split; [auto|].
    intros [?| ->]; done.
  - rewrite insert_or_ignore_absent by done. unfold names. simpl.
    rewrite fmap_app, elem_of_app. simpl. by rewrite list_elem_of_singleton.
Qed.

Lemma unique_insert_or_ignore now d n :
  unique_names d -> unique_names (insert_or_ignore now d n).
Proof.
  intros Hu. destruct (decide (n ∈ names d)) as [Hin|Hin].
  - by rewrite insert_or_ignore_present.
  - rewrite insert_or_ignore_absent by done. unfold unique_names, names.
    simpl. rewrite fmap_app. apply NoDup_app. split; [done|]. split.
    + intros x Hx Hx'. simpl in Hx'. apply list_elem_of_singleton in Hx'.
      by subst.
    + simpl. apply NoDup_singleton.
Qed.

Lemma find_app_has_name n l l' :
  find (has_name n) (l ++ l') =
  match find (has_name n) l with
  | Some r => Some r
  | None => find (has_name n) l'
  end.
Proof.
  induction l as [|r l IH]; simpl; [done|]. by destruct (has_name n r).
Qed.

(** A created row holds zero counters, so the counters of every name
    read the same after the insert. *)
Lemma games_of_insert_or_ignore now d n m :
  games_of m (insert_or_ignore now d n) = games_of m d.
Proof.
  destruct (decide (n ∈ names d)) as [Hin|Hin].
  - by rewrite insert_or_ignore_present.
  - rewrite insert_or_ignore_absent by done.
    unfold games_of, find_player. simpl. rewrite find_app_has_name.
    destruct (find (has_name m) (players_table d)); [done|].
    simpl. by destruct (has_name m _).
Qed.

Lemma wins_of_insert_or_ignore now d n m :
  wins_of m (insert_or_ignore now d n) = wins_of m d.
Proof.
  destruct (decide (n ∈ names d)) as [Hin|Hin].
  - by rewrite insert_or_ignore_present.
  - rewrite insert_or_ignore_absent by done.
    unfold wins_of, find_player. simpl. rewrite find_app_has_name.
    destruct (find (has_name m) (players_table d)); [done|].
    simpl. by destruct (has_name m _).
Qed.

(** The first loop of [record_game_result]. *)
Lemma names_inserts now ps d m :
  m ∈ names (fold_left (insert_or_ignore now) ps d)
  <-> m ∈ names d \/ m ∈ ps.
Proof.
  revert d. induction ps as [|p ps IH]; intros d; simpl.
  - rewrite elem_of_nil. tauto.
  - rewrite IH, names_insert_or_ignore, elem_of_cons. tauto.
Qed.

Lemma unique_inserts now ps d :
  unique_names d -> unique_names (fold_left (insert_or_ignore now) ps d).
Proof.
  revert d. induction ps as [|p ps IH]; intros d Hu; simpl; [done|].
  by apply IH, unique_insert_or_ignore.
Qed.

Lemma games_of_inserts now ps d m :
  games_of m (fold_left (insert_or_ignore now) ps d) = games_of m d.
Proof.
  revert d. induction ps as [|p ps IH]; intros d; simpl; [done|].
  by rewrite IH, games_of_insert_or_ignore.
Qed.

Lemma wins_of_inserts now ps d m :
  wins_of m (fold_left (insert_or_ignore now) ps d) = wins_of m d.
Proof.
  revert d. induction ps as [|p ps IH]; intros d; simpl; [done|].
  by rewrite IH, wins_of_insert_or_ignore.
Qed.

(** *** UPDATE ... WHERE name = ? *)

Lemma names_update f d n :
  (forall r, Player.name (f r) = Player.name r) ->
  names (update_where_name f d n) = names d.
Proof.
  intros Hf. unfold names, update_where_name. simpl.
  rewrite <- list_fmap_compose. apply list_fmap_ext.
  intros i r _. simpl. by destruct (has_name n r).
Qed.

Lemma find_player_update f d n m :
  (forall r, Player.name (f r) = Player.name r) ->
  find_player m (update_where_name f d n) =
  (fun r => if has_name n r then f r else r) <$> find_player m d.
Proof.
  intros Hf. unfold find_player, update_where_name. simpl.
  induction (players_table d) as [|r l IH]; simpl; [done|].
  assert (has_name m (if has_name n r then f r else r) = has_name m r) as ->.
  { unfold has_name at 1 3. destruct (has_name n r); by rewrite ?Hf. }
  by destruct (has_name m r).
Qed.

Lemma games_of_update_games now d n m :
  games_of m (update_where_name (incr_games_played now) d n) =
  games_of m d + (if bool_decide (m = n /\ m ∈ names d) then 1 else 0).
Proof.
  unfold games_of. rewrite find_player_update by done.
  destruct (find_player m d) as [r|] eqn:E; simpl.
  - pose proof (find_player_name _ _ _ E) as Hr.
    assert (m ∈ names d) by (apply find_player_is_Some; eauto).
    destruct (has_name n r) eqn:En.
    + apply has_name_true in En. rewrite bool_decide_eq_true_2; [done|].
      split; [congruence | done].
    + apply has_name_false in En. rewrite bool_decide_eq_false_2; [lia|].
      intros [? _]. congruence.
  - apply find_player_None in E. rewrite bool_decide_eq_false_2; [lia|].
    tauto.
Qed.

Lemma wins_of_update_games now d n m :
  wins_of m (update_where_name (incr_games_played now) d n) = wins_of m d.
Proof.
  unfold wins_of. rewrite find_player_update by done.
  destruct (find_player m d) as [r|]; simpl; [|done].
  by destruct (has_name n r).
Qed.

Lemma games_of_update_wins now d n m :
  games_of m (update_where_name (incr_wins now) d n) = games_of m d.
Proof.
  unfold games_of. rewrite find_player_update by done.
  destruct (find_player m d) as [r|]; simpl; [|done].
  by destruct (has_name n r).
Qed.

Lemma wins_of_update_wins now d n m :
  wins_of m (update_where_name (incr_wins now) d n) =
  wins_of m d + (if bool_decide (m = n /\ m ∈ names d) then 1 else 0).
Proof.
  unfold wins_of. rewrite find_player_update by done.
  destruct (find_player m d) as [r|] eqn:E; simpl.
  - pose proof (find_player_name _ _ _ E) as Hr.
    assert (m ∈ names d) by (apply find_player_is_Some; eauto).
    destruct (has_name n r) eqn:En.
    + apply has_name_true in En. rewrite bool_decide_eq_true_2; [done|].
      split; [congruence | done].
    + apply has_name_false in En. rewrite bool_decide_eq_false_2; [lia|].
      intros [? _]. congruence.
  - apply find_player_None in E. rewrite bool_decide_eq_false_2; [lia|].
    tauto.
Qed.

(** The second loop ([executemany]). *)
Lemma names_updates now ps d :
  names (fold_left (update_where_name (incr_games_played now)) ps d) = names d.
Proof.
  revert d. induction ps as [|p ps IH]; intros d; simpl; [done|].
  by rewrite IH, names_update.
Qed.

Lemma occurrences_cons n p ps :
  occurrences n (p :: ps) =
  ((if bool_decide (p = n) then 1 else 0) + occurrences n ps)%nat.
Proof. unfold occurrences. simpl. by destruct (bool_decide (p = n)). Qed.

Lemma occurrences_absent n ps : n ∉ ps -> occurrences n ps = 0%nat.
Proof.
  induction ps as [|p ps IH]; [done|].
  intros [Hne Hps]%not_elem_of_cons. rewrite occurrences_cons, IH by done.
  by rewrite bool_decide_eq_false_2.
Qed.

Lemma occurrences_NoDup n ps : NoDup ps -> n ∈ ps -> occurrences n ps = 1%nat.
Proof.
  induction ps as [|p ps IH]; intros Hnd Hin.
  - by apply elem_of_nil in Hin.
  - apply NoDup_cons in Hnd as [Hp Hnd]. rewrite occurrences_cons.
    apply elem_of_cons in Hin as [->|Hin].
    + rewrite bool_decide_eq_true_2, occurrences_absent; done.
    + rewrite bool_decide_eq_false_2, IH; [done..|]. intros ->. done.
Qed.

Lemma occurrences_pos n ps : n ∈ ps -> (0 < occurrences n ps)%nat.
Proof.
  induction ps as [|p ps IH]; intros Hin.
  - by apply elem_of_nil in Hin.
  - rewrite occurrences_cons. apply elem_of_cons in Hin as [->|Hin].
    + rewrite bool_decide_eq_true_2 by done. lia.
    + specialize (IH Hin). lia.
Qed.

Lemma games_of_updates now ps d m :
  games_of m (fold_left (update_where_name (incr_games_played now)) ps d) =
  games_of m d +
  (if decide (m ∈ names d) then Z.of_nat (occurrences m ps) else 0).
Proof.
  revert d. induction ps as [|p ps IH]; intros d; simpl.
  - destruct (decide _); unfold occurrences; simpl; lia.
  - rewrite IH, names_update, games_of_update_games, occurrences_cons by done.
    destruct (decide (m ∈ names d)) as [Hin|Hin].
    + destruct (decide (p = m)) as [->|Hne].
      * rewrite !bool_decide_eq_true_2 by done. lia.
      * rewrite (bool_decide_eq_false_2 (p = m)) by done.
        rewrite bool_decide_eq_false_2; [lia|]. intros [-> _]. done.
    + rewrite bool_decide_eq_false_2; [lia|]. tauto.
Qed.

Lemma wins_of_updates now ps d m :
  wins_of m (fold_left (update_where_name (incr_games_played now)) ps d) =
  wins_of m d.
Proof.
  revert d. induction ps as [|p ps IH]; intros d; simpl; [done|].
  by rewrite IH, wins_of_update_games.
Qed.

(** *** [record_game_result] as a whole *)

Lemma names_record_game_result now w ps d m :
  m ∈ names (record_game_result now w ps d) <-> m ∈ names d \/ m ∈ ps.
Proof.
  unfold record_game_result.
  rewrite names_update, names_updates by done. apply names_inserts.
Qed.

Lemma unique_record_game_result now w ps d :
  unique_names d -> unique_names (record_game_result now w ps d).
Proof.
  intros Hu. unfold record_game_result, unique_names.
  rewrite names_update, names_updates by done. by apply unique_inserts.
Qed.

Lemma games_of_record_game_result now w ps d m :
  games_of m (record_game_result now w ps d) =
  games_of m d + Z.of_nat (occurrences m ps).
Proof.
  unfold record_game_result.
  rewrite games_of_update_wins, games_of_updates, games_of_inserts.
  destruct (decide _) as [Hin|Hin]; [done|].
  rewrite names_inserts in Hin. rewrite occurrences_absent; [done|]. tauto.
Qed.

Lemma wins_of_record_game_result now w ps d m :
  wins_of m (record_game_result now w ps d) =
  wins_of m d +
  (if bool_decide (m = w /\ (m ∈ names d \/ m ∈ ps)) then 1 else 0).
Proof.
  unfold record_game_result.
  rewrite wins_of_update_wins, wins_of_updates, wins_of_inserts.
  rewrite names_updates.
  erewrite bool_decide_ext; [done|]. by rewrite names_inserts.
Qed.

End Store.

(** * Tallies *)

Lemma find_player_unique d r :
  unique_names d -> r ∈ players_table d ->
  find_player (Player.name r) d = Some r.
Proof.
  unfold unique_names, names, find_player.
  induction (players_table d) as [|r' l IH]; simpl; intros Hnd Hin.
  - by apply elem_of_nil in Hin.
  - apply NoDup_cons in Hnd as [Hr' Hnd].
    destruct (has_name (Player.name r) r') eqn:E.
    + apply has_name_true in E.
      apply elem_of_cons in Hin as [->|Hin]; [done|].
      exfalso. apply Hr'. rewrite E. by apply list_elem_of_fmap_2.
    + apply has_name_false in E.
      apply elem_of_cons in Hin as [->|Hin]; [done | auto].
Qed.

(** C1, as the code has it: on a table with unique names, for a
    non-empty participant list that lists no name twice and a winner who
    is a participant or already has a row, after the call the names are
    still unique, every participant has exactly one row and a
    [games_played] one greater than before (an absent participant counts
    from the zero of a created row, so ends with 1 game and with 1 win
    only as the winner), a stored name keeps a single row, the winner's
    [wins] is one greater than before, and nobody else's [wins] changes. *)
Theorem record_game_result_tally now w ps d :
  unique_names d -> ps <> [] -> NoDup ps -> w ∈ ps \/ w ∈ names d ->
  let d' := record_game_result now w ps d in
  unique_names d'
  /\ (forall n, n ∈ ps ->
        count_rows n d' = 1%nat /\ games_of n d' = games_of n d + 1)
  /\ (forall n, n ∈ ps -> n ∉ names d ->
        games_of n d' = 1
        /\ wins_of n d' = if bool_decide (n = w) then 1 else 0)
  /\ (forall n, n ∈ names d -> count_rows n d' = 1%nat)
  /\ wins_of w d' = wins_of w d + 1
  /\ (forall n, n <> w -> wins_of n d' = wins_of n d).
Proof.
  intros Hu Hne Hnd Hw d'. subst d'.
  pose proof (unique_record_game_result now w ps d Hu) as Hu'.
  split; [done|]. split; [|split; [|split; [|split]]].
  - intros n Hn. split.
    + apply count_rows_unique; [done|]. apply names_record_game_result. auto.
    + rewrite games_of_record_game_result. by rewrite occurrences_NoDup.
  - intros n Hn Habs.
    rewrite games_of_record_game_result, wins_of_record_game_result.
    rewrite occurrences_NoDup by done.
    apply find_player_None in Habs. unfold games_of, wins_of. rewrite Habs.
    simpl. split; [done|].
    destruct (decide (n = w)) as [->|Hnw].
    + rewrite !bool_decide_eq_true_2; [done..|]. auto.
    + rewrite !bool_decide_eq_false_2; [done..|]. tauto.
  - intros n Hn. apply count_rows_unique; [done|].
    apply names_record_game_result. auto.
  - rewrite wins_of_record_game_result. rewrite bool_decide_eq_true_2; [done|].
    tauto.
  - intros n Hn. rewrite wins_of_record_game_result.
    rewrite bool_decide_eq_false_2; [lia|]. tauto.
Qed.

Lemma record_game_result_tally_witness :
  let Al := str "Al" in
  let Bo := str "Bo" in
  let d := record_game_result (str "t0") Al [Al] init_db in
  let d' := record_game_result (str "t1") Bo [Al; Bo] d in
  (unique_names d /\ [Al; Bo] <> [] /\ NoDup [Al; Bo]
   /\ (Bo ∈ [Al; Bo] \/ Bo ∈ names d))
  /\ unique_names d'
  /\ (forall n, n ∈ [Al; Bo] ->
        count_rows n d' = 1%nat /\ games_of n d' = games_of n d + 1)
  /\ (forall n, n ∈ [Al; Bo] -> n ∉ names d ->
        games_of n d' = 1
        /\ wins_of n d' = if bool_decide (n = Bo) then 1 else 0)
  /\ (forall n, n ∈ names d -> count_rows n d' = 1%nat)
  /\ wins_of Bo d' = wins_of Bo d + 1
  /\ (forall n, n <> Bo -> wins_of n d' = wins_of n d).
Proof.
  intros Al Bo d d'.
  assert (unique_names d) as H1
    by (unfold unique_names; compute_done).
  assert ([Al; Bo] <> []) as H2 by discriminate.
  assert (NoDup [Al; Bo]) as H3
    by compute_done.
  assert (Bo ∈ [Al; Bo] \/ Bo ∈ names d) as H4
    by (left; compute_done).
  split; [exact (conj H1 (conj H2 (conj H3 H4)))|].
  exact (record_game_result_tally (str "t1") Bo [Al; Bo] d H1 H2 H3 H4).
Defined.

Lemma record_game_result_tally_counterexample :
  let Al := str "Al" in
  let Eve := str "Eve" in
  let d1 := record_game_result (str "t") Al [Al; Al] init_db in
  let d2 := record_game_result (str "t") Eve [Al] init_db in
  (games_of Al d1 = games_of Al init_db + 2
   /\ games_of Al d1 <> games_of Al init_db + 1)
  /\ (find_player Eve d2 = None
      /\ wins_of Eve d2 <> wins_of Eve init_db + 1).
Proof. vm_compute. repeat split; discriminate. Qed.

Lemma games_of_run_calls cs d n :
  games_of n (run_calls cs d) = games_of n d + total_occurrences n cs.
Proof.
  revert d. induction cs as [|c cs IH]; intros d; simpl; [lia|].
  unfold run_calls in *. simpl. rewrite IH. unfold run_call.
  rewrite games_of_record_game_result. lia.
Qed.

Lemma unique_run_calls cs d : unique_names d -> unique_names (run_calls cs d).
Proof.
  revert d. induction cs as [|c cs IH]; intros d Hu; simpl; [done|].
  apply IH. by apply unique_record_game_result.
Qed.

Lemma wins_le_games_run_calls cs d :
  Forall winner_takes_part cs ->
  (forall n, 0 <= wins_of n d <= games_of n d) ->
  forall n, 0 <= wins_of n (run_calls cs d) <= games_of n (run_calls cs d).
Proof.
  intros Hcs. revert d. induction Hcs as [|c cs Hc Hcs IH]; intros d Hd n.
  - apply Hd.
  - apply IH. clear n. intros n. unfold run_call.
    rewrite games_of_record_game_result, wins_of_record_game_result.
    specialize (Hd n). case_bool_decide as Hn; [|lia].
    destruct Hn as [-> _]. apply occurrences_pos in Hc. lia.
Qed.

Lemma total_occurrences_NoDup n cs :
  Forall (fun c => NoDup (call_participants c)) cs ->
  total_occurrences n cs = games_with n cs.
Proof.
  unfold games_with. induction 1 as [|c cs Hc Hcs IH]; simpl; [done|].
  rewrite IH. case_bool_decide as Hn; simpl.
  - rewrite occurrences_NoDup by done. lia.
  - rewrite occurrences_absent by done. lia.
Qed.

(** C2, as the code has it: start from the empty store and run calls in
    each of which the winner is a participant. After every call (the
    first [k] calls, for every [k]) the names are unique and every stored
    player's [games_played] is the number of times the player's name was
    listed as a participant; it is the number of calls the player took
    part in when no call lists a name twice; and [0 <= wins <=
    games_played]. *)
Theorem games_played_counts_participation cs k :
  Forall winner_takes_part cs ->
  let played := take k cs in
  let d := run_calls played init_db in
  unique_names d
  /\ forall r, r ∈ players_table d ->
       Player.games_played r = total_occurrences (Player.name r) played
       /\ (Forall (fun c => NoDup (call_participants c)) cs ->
           Player.games_played r = games_with (Player.name r) played)
       /\ 0 <= Player.wins r <= Player.games_played r.
Proof.
  intros Hcs played d.
  assert (unique_names d) as Hu.
  { apply unique_run_calls. apply NoDup_nil_2. }
  split; [done|]. intros r Hr.
  pose proof (find_player_unique d r Hu Hr) as Hf.
  assert (Player.games_played r = games_of (Player.name r) d) as Hg.
  { unfold games_of. by rewrite Hf. }
  assert (Player.wins r = wins_of (Player.name r) d) as Hw.
  { unfold wins_of. by rewrite Hf. }
  assert (Player.games_played r = total_occurrences (Player.name r) played)
    as Ht.
  { rewrite Hg. subst d. by rewrite games_of_run_calls. }
  split; [done|]. split.
  - intros Hnd. rewrite Ht. apply total_occurrences_NoDup.
    by apply Forall_take.
  - rewrite Hw, Hg. subst d. apply wins_le_games_run_calls.
    + by apply Forall_take.
    + intros n. by vm_compute.
Qed.

Lemma games_played_counts_participation_witness :
  let Al := str "Al" in
  let Bo := str "Bo" in
  let cs := [mkcall (str "t0") Al [Al; Bo]; mkcall (str "t1") Bo [Bo]] in
  let d := run_calls (take 2 cs) init_db in
  Forall winner_takes_part cs
  /\ unique_names d
  /\ forall r, r ∈ players_table d ->
       Player.games_played r = total_occurrences (Player.name r) (take 2 cs)
       /\ (Forall (fun c => NoDup (call_participants c)) cs ->
           Player.games_played r = games_with (Player.name r) (take 2 cs))
       /\ 0 <= Player.wins r <= Player.games_played r.
Proof.
  intros Al Bo cs d.
  assert (Forall winner_takes_part cs) as H1.
  { apply Forall_cons. split.
    - unfold winner_takes_part. compute_done.
    - apply Forall_cons. split; [|apply Forall_nil_2].
      unfold winner_takes_part. compute_done. }
  split; [exact H1|].
  exact (games_played_counts_participation cs 2 H1).
Defined.

Lemma games_played_counts_participation_counterexample :
  let Al := str "Al" in
  let now := str "t" in
  let cs := [mkcall now Al [Al; Al]] in
  call_winner (mkcall now Al [Al; Al]) = Al
  /\ players_table (run_calls cs init_db) = [Player.mk 1 Al 1 2 now now]
  /\ games_with Al cs = 1
  /\ Player.games_played (Player.mk 1 Al 1 2 now now) <> games_with Al cs.
Proof. vm_compute. repeat split; discriminate. Qed.

(** C10: on a table with unique names, a name listed among the
    participants has exactly one row after the call, and that row's
    [games_played] has grown by the number of times the name is listed.
    Two session players who entered the same name reach the store that
    way: after a complete game between them there is one row, with two
    games played for the single game. *)
Theorem repeated_name_counts_per_occurrence :
  (forall now w ps d n,
     unique_names d -> n ∈ ps ->
     let d' := record_game_result now w ps d in
     count_rows n d' = 1%nat
     /\ games_of n d' = games_of n d + Z.of_nat (occurrences n ps))
  /\ (let finished :=
        rounds 7 (Some (str "7")) (exec (setup two_als) first_visit) in
      players (sess finished)
        = Some [Token.mk (str "Al") 24; Token.mk (str "Al") 18]
      /\ recorded finished = [(str "Al", [str "Al"; str "Al"])]
      /\ names (db finished) = [str "Al"]
      /\ games_of (str "Al") (db finished) = 2
      /\ wins_of (str "Al") (db finished) = 1).
Proof.
  split.
  - intros now w ps d n Hu Hn d'. subst d'. split.
    + apply count_rows_unique; [by apply unique_record_game_result|].
      apply names_record_game_result. auto.
    + apply games_of_record_game_result.
  - vm_compute. repeat split; reflexivity.
Qed.

Lemma repeated_name_counts_per_occurrence_witness :
  let Al := str "Al" in
  let d := record_game_result (str "t0") Al [Al] init_db in
  let d' := record_game_result (str "t1") Al [Al; Al] d in
  (unique_names d /\ Al ∈ [Al; Al])
  /\ count_rows Al d' = 1%nat
  /\ games_of Al d' = games_of Al d + Z.of_nat (occurrences Al [Al; Al]).
Proof.
  intros Al d d'.
  assert (unique_names d) as H1
    by (unfold unique_names; compute_done).
  assert (Al ∈ [Al; Al]) as H2
    by compute_done.
  split; [exact (conj H1 H2)|].
  exact (proj1 repeated_name_counts_per_occurrence (str "t1") Al [Al; Al] d Al
           H1 H2).
Defined.

(** * The roll/answer state machine *)

(** Runs a handler on a world given by its fields: unfolds the monad and
    the session accessors, and nothing of the arithmetic. *)
Ltac run_handler :=
  cbv beta iota zeta delta
    [answer roll setup reset new_game next_turn current_player_name
     current_player current_player_index player_at set_pos
     call_record_game_result flash getitem get_session modify_session raise
     randint choice next_draw
     mbind M_bind mret M_ret option_bind
     with_sess sess db rng utcnow flashes recorded
     players turn awaiting_answer current_question last_roll message questions
     set_players set_turn set_awaiting_answer set_current_question
     set_last_roll set_message set_questions
     truthy_flag truthy_players negb fst snd].

Lemma current_player_index_lt s ps i :
  players s = Some ps -> current_player_index s = Some i ->
  (i < length ps)%nat /\
  i = Z.to_nat (default 0 (turn s) `mod` Z.of_nat (length ps)).
Proof.
  unfold current_player_index. intros ->. destruct ps as [|p ps]; [done|].
  intros [= <-]. split; [|done].
  pose proof (Z.mod_pos_bound (default 0 (turn s))
                (Z.of_nat (length (p :: ps)))) as Hb.
  cbn [length] in *. lia.
Qed.

Lemma lookup_mod_is_Some {A} (l : list A) (z : Z) :
  l <> [] -> is_Some (l !! Z.to_nat (z `mod` Z.of_nat (length l))).
Proof.
  intros Hl. apply lookup_lt_is_Some.
  assert (0 < Z.of_nat (length l)) as Hpos.
  { destruct l; [done | simpl; lia]. }
  pose proof (Z.mod_pos_bound z _ Hpos). lia.
Qed.

(** What [answer] does to a world that awaits an answer. *)
Lemma answer_resolves w ans ps t lr cq i pl :
  awaiting_answer (sess w) = Some true ->
  current_question (sess w) = Some (Some cq) ->
  last_roll (sess w) = Some lr ->
  players (sess w) = Some ps ->
  turn (sess w) = Some t ->
  current_player_index (sess w) = Some i ->
  ps !! i = Some pl ->
  let correct := bool_decide (strip (default [] ans) = strip (Question.a cq)) in
  let p' := moved correct (Token.pos pl) (or_zero lr) in
  let ps' := <[i := Token.mk (Token.name pl) p']> ps in
  exists w',
    answer ans w = (Return redirect_index, w')
    /\ players (sess w') = Some ps'
    /\ awaiting_answer (sess w') = Some false
    /\ current_question (sess w') = Some None
    /\ last_roll (sess w') = Some None
    /\ questions (sess w') = questions (sess w)
    /\ rng w' = rng w
    /\ if BOARD_SIZE <=? p'
       then turn (sess w') = Some t
            /\ db w' = record_game_result (utcnow w) (Token.name pl)
                                          (Token.name <$> ps') (db w)
            /\ recorded w' = recorded w ++ [(Token.name pl, Token.name <$> ps')]
       else turn (sess w') = Some ((t + 1) `mod` Z.of_nat (length ps))
            /\ db w' = db w
            /\ recorded w' = recorded w
            /\ flashes w' = flashes w.
Proof.
  intros Haw Hcq Hlr Hps Ht Hi Hpl correct p' ps'.
  destruct (current_player_index_lt _ _ _ Hps Hi) as [Hlt Hidx].
  destruct w as [s d g now fl rec]. destruct s as [ops ot oaw ocq olr om oqs].
  simpl in *. subst ops ot oaw ocq olr.
  destruct ps as [|p0 ps0]; [simpl in Hlt; lia|].
  assert (exists q qs, ps' = q :: qs) as (q & qs & Hins).
  { subst ps'. destruct i; simpl; eauto. }
  assert (length ps' = length (p0 :: ps0)) as Hlen.
  { subst ps'. apply length_insert. }
  assert (ps' !! i = Some (Token.mk (Token.name pl) p')) as Hpl'.
  { subst ps'. by apply list_lookup_insert_eq. }
  assert (forall z, exists nxt,
            ps' !! Z.to_nat (default 0 (Some z) `mod` Z.of_nat (length ps'))
            = Some nxt) as Hnext.
  { intros z. apply lookup_mod_is_Some. by rewrite Hins. }
  run_handler. rewrite <- ?Hidx, ?Hpl.
  fold correct. destruct correct eqn:Hc.
  - run_handler. rewrite <- ?Hidx, ?Hpl. run_handler.
    fold (or_zero lr). fold (moved true (Token.pos pl) (or_zero lr)). fold p'.
    fold ps'. rewrite Hpl'. run_handler.
    cbv beta iota delta [Token.pos].
    destruct (BOARD_SIZE <=? p') eqn:Hwin.
    + run_handler. eexists. split; [reflexivity|].
      cbv beta iota delta [sess players turn awaiting_answer].
      repeat split; reflexivity.
    + run_handler. rewrite Hins. run_handler. rewrite <- Hins.
      destruct (Hnext ((t + 1) `mod` Z.of_nat (length ps'))) as [nxt ->].
      run_handler. eexists. split; [reflexivity|].
      cbv beta iota delta [sess players turn awaiting_answer].
      rewrite Hlen. repeat split; reflexivity.
  - run_handler. rewrite <- ?Hidx, ?Hpl. run_handler.
    fold (moved false (Token.pos pl) (or_zero lr)). fold p'.
    fold ps'. rewrite Hpl'. run_handler.
    cbv beta iota delta [Token.pos].
    destruct (BOARD_SIZE <=? p') eqn:Hwin.
    + run_handler. eexists. split; [reflexivity|].
      cbv beta iota delta [sess players turn awaiting_answer].
      repeat split; reflexivity.
    + run_handler. rewrite Hins. run_handler. rewrite <- Hins.
      destruct (Hnext ((t + 1) `mod` Z.of_nat (length ps'))) as [nxt ->].
      run_handler. eexists. split; [reflexivity|].
      cbv beta iota delta [sess players turn awaiting_answer].
      rewrite Hlen. repeat split; reflexivity.
Qed.

Lemma names_insert_same (ps : list Token.t) i pl v :
  ps !! i = Some pl ->
  Token.name <$> <[i := Token.mk (Token.name pl) v]> ps = Token.name <$> ps.
Proof.
  intros Hpl. rewrite list_fmap_insert. simpl.
  apply list_insert_id. by rewrite list_lookup_fmap, Hpl.
Qed.

Lemma winner_is_Some s ps i pl :
  players s = Some ps -> ps !! i = Some pl -> BOARD_SIZE <= Token.pos pl ->
  is_Some (winner s).
Proof.
  intros Hps Hpl Hpos. unfold winner. rewrite Hps. simpl.
  destruct (find _ ps) as [p|] eqn:Hf; [by eexists|].
  exfalso. apply list_elem_of_lookup_2, list_elem_of_In in Hpl.
  pose proof (find_none _ _ Hf _ Hpl) as Hn. simpl in Hn.
  apply Z.leb_gt in Hn. lia.
Qed.

(** A roll in a session with players and no pending answer draws a die
    in [1, 6] and a question of the pool, and leaves the session awaiting
    an answer with the same players and turn. *)
Lemma roll_awaits_answer w ps :
  players (sess w) = Some ps -> ps <> [] ->
  truthy_flag (awaiting_answer (sess w)) = false ->
  questions (sess w) <> Some [] ->
  exists w' r q,
    roll w = (Return redirect_index, w')
    /\ 1 <= r <= 6
    /\ q ∈ default DEFAULT_QUESTIONS (questions (sess w))
    /\ last_roll (sess w') = Some (Some r)
    /\ current_question (sess w') = Some (Some q)
    /\ awaiting_answer (sess w') = Some true
    /\ players (sess w') = Some ps
    /\ turn (sess w') = turn (sess w)
    /\ db w' = db w /\ recorded w' = recorded w.
Proof.
  destruct w as [[ops ot oaw ocq olr om oqs] d [dr cu] now fl rec]. simpl.
  intros -> Hps Haw Hqs. destruct ps as [|p ps]; [done|].
  set (pool := default DEFAULT_QUESTIONS oqs).
  assert (exists q0 qs0, pool = q0 :: qs0) as (q0 & qs0 & Hpool).
  { subst pool. destruct oqs as [[|q0 qs0]|]; simpl; eauto. done. }
  destruct (lookup_lt_is_Some_2 pool
              (N.to_nat (dr (S cu)) `mod` length pool)%nat) as [q Hq].
  { apply Nat.mod_upper_bound. by rewrite Hpool. }
  destruct (lookup_lt_is_Some_2 (p :: ps)
              (Z.to_nat (default 0 ot `mod` Z.of_nat (length (p :: ps)))))
    as [pl Hpl].
  { pose proof (Z.mod_pos_bound (default 0 ot) (Z.of_nat (length (p :: ps)))).
    cbn [length] in *. lia. }
  assert (1 <= 1 + Z.of_N (dr cu) `mod` (6 - 1 + 1) <= 6) as Hdie.
  { pose proof (Z.mod_pos_bound (Z.of_N (dr cu)) (6 - 1 + 1)). lia. }
  apply list_elem_of_lookup_2 in Hq as Hin.
  run_handler. destruct oaw as [[|]|]; try done.
  all: run_handler; fold pool; rewrite Hpool; run_handler; rewrite <- Hpool;
    cbv beta iota delta [draws cursor]; rewrite Hq; run_handler; rewrite Hpl;
    run_handler; eexists _, _, q; (split; [reflexivity|]);
    cbv beta iota delta [sess players turn awaiting_answer current_question
                         last_roll db recorded];
    repeat split; try done; lia.
Qed.



(** C4, as the code has it: an answer resolution returns normally and
    leaves the names of the players as they were. When it leaves the mover
    at or above the board size, that call invokes [record_game_result]
    exactly once, with the mover as winner and the names of all current
    players as participants, the store is the result of that call, the
    turn index is not advanced and the page shows a winner. When it leaves
    the mover below the board size, [record_game_result] is not invoked,
    the store is unchanged and the turn advances to the next player. *)
Theorem winning_answer_records_result w ans ps t lr cq i pl :
  awaiting_answer (sess w) = Some true ->
  current_question (sess w) = Some (Some cq) ->
  last_roll (sess w) = Some lr ->
  players (sess w) = Some ps ->
  turn (sess w) = Some t ->
  current_player_index (sess w) = Some i ->
  ps !! i = Some pl ->
  exists w' pl',
    answer ans w = (Return redirect_index, w')
    /\ player_at i (sess w') = Some pl'
    /\ Token.name pl' = Token.name pl
    /\ Token.name <$> default [] (players (sess w')) = Token.name <$> ps
    /\ (BOARD_SIZE <= Token.pos pl' ->
          recorded w' = recorded w ++ [(Token.name pl, Token.name <$> ps)]
          /\ db w' = record_game_result (utcnow w) (Token.name pl)
                                        (Token.name <$> ps) (db w)
          /\ turn (sess w') = Some t
          /\ is_Some (winner (sess w')))
    /\ (Token.pos pl' < BOARD_SIZE ->
          recorded w' = recorded w
          /\ db w' = db w
          /\ turn (sess w') = Some ((t + 1) `mod` Z.of_nat (length ps))).
Proof.
  intros Haw Hcq Hlr Hps Ht Hi Hpl.
  destruct (current_player_index_lt _ _ _ Hps Hi) as [Hlt _].
  destruct (answer_resolves w ans ps t lr cq i pl Haw Hcq Hlr Hps Ht Hi Hpl)
    as (w' & Hrun & Hps' & _ & _ & _ & _ & _ & Hend).
  set (p' := moved _ _ _) in *.
  rewrite names_insert_same in Hend by done.
  exists w', (Token.mk (Token.name pl) p').
  assert (player_at i (sess w') = Some (Token.mk (Token.name pl) p')) as Hat.
  { unfold player_at. rewrite Hps'. simpl.
    by rewrite list_lookup_insert_eq. }
  split; [done|]. split; [done|]. split; [done|]. split.
  { rewrite Hps'. simpl. by apply names_insert_same. }
  simpl. split.
  - intros Hwin. apply Z.leb_le in Hwin as Hwin'. rewrite Hwin' in Hend.
    destruct Hend as (? & ? & ?). repeat split; try done.
    unfold player_at in Hat. rewrite Hps' in Hat. simpl in Hat.
    by eapply winner_is_Some.
  - intros Hlose. apply Z.leb_gt in Hlose. rewrite Hlose in Hend.
    destruct Hend as (? & ? & ? & ?). done.
Qed.

Lemma winning_answer_records_result_witness :
  let Al := Token.mk (str "Al") 22 in
  let Bo := Token.mk (str "Bo") 3 in
  let cq := Question.mk (str "2 + 2") (str "4") in
  (awaiting_answer (sess near_finish) = Some true
   /\ current_question (sess near_finish) = Some (Some cq)
   /\ last_roll (sess near_finish) = Some (Some 5)
   /\ players (sess near_finish) = Some [Al; Bo]
   /\ turn (sess near_finish) = Some 0
   /\ current_player_index (sess near_finish) = Some 0%nat
   /\ [Al; Bo] !! 0%nat = Some Al)
  /\ exists w' pl',
       answer (Some (str "4")) near_finish = (Return redirect_index, w')
       /\ player_at 0 (sess w') = Some pl'
       /\ Token.name pl' = str "Al"
       /\ Token.name <$> default [] (players (sess w'))
            = [str "Al"; str "Bo"]
       /\ (BOARD_SIZE <= Token.pos pl' ->
             recorded w' = [(str "Al", [str "Al"; str "Bo"])]
             /\ db w' = record_game_result (utcnow near_finish) (str "Al")
                                           [str "Al"; str "Bo"] init_db
             /\ turn (sess w') = Some 0
             /\ is_Some (winner (sess w')))
       /\ (Token.pos pl' < BOARD_SIZE ->
             recorded w' = []
             /\ db w' = init_db
             /\ turn (sess w') = Some ((0 + 1) `mod` 2)).
Proof.
  intros Al Bo cq.
  split; [repeat split; reflexivity|].
  exact (winning_answer_records_result near_finish (Some (str "4"))
           [Al; Bo] 0 (Some 5) cq 0%nat Al
           eq_refl eq_refl eq_refl eq_refl eq_refl eq_refl eq_refl).
Defined.

(** C4 as stated fails: the handlers do not lock a finished game. After
    the winning answer a roll is accepted, and a second correct answer of
    the same mover, in the same game (no setup, no reset), invokes
    [record_game_result] a second time and adds a second win. *)
Lemma winning_answer_records_result_counterexample :
  let w1 := exec (answer (Some (str "4"))) near_finish in
  let w2 := exec roll w1 in
  let w3 := exec (answer (Some (str "7"))) w2 in
  (winner (sess w1) = Some (str "Al")
   /\ recorded w1 = [(str "Al", [str "Al"; str "Bo"])])
  /\ (awaiting_answer (sess w2) = Some true
      /\ players (sess w2) = players (sess w1))
  /\ (recorded w3 = [(str "Al", [str "Al"; str "Bo"]);
                     (str "Al", [str "Al"; str "Bo"])]
      /\ wins_of (str "Al") (db w3) = 2
      /\ games_of (str "Bo") (db w3) = 2).
Proof. vm_compute. repeat split; reflexivity. Qed.



(** * Setup *)

(** The names that [setup] collects are never more than four: the loop
    reads the fields [name1] to [name4] only. *)
Lemma collect_names_length f :
  Z.of_nat (length (collect_names f)) <= MAX_PLAYERS.
Proof.
  unfold collect_names.
  change (range 1 (MAX_PLAYERS + 1)) with [1; 2; 3; 4].
  cbn [fold_left].
  repeat match goal with
         | |- context [if nonempty ?s then _ else _] =>
             destruct (nonempty s)
         end;
    rewrite ?length_app; simpl; unfold MAX_PLAYERS; lia.
Qed.

(** No name: a warning, and nothing else changes. *)
Lemma setup_rejects_no_names f w :
  collect_names f = [] ->
  setup f w =
    (Return redirect_index,
     mkworld (sess w) (db w) (rng w) (utcnow w)
             (flashes w ++ [str "Enter at least one player name."])
             (recorded w)).
Proof. intros Hf. unfold setup. rewrite Hf. reflexivity. Qed.

(** At least one name: one token per collected name at position 0 and
    turn index 0, without a warning; the pending-answer fields are not
    touched. *)
Lemma setup_initializes f w n ns :
  collect_names f = n :: ns ->
  exists w',
    setup f w = (Return redirect_index, w')
    /\ players (sess w') = Some ((fun n => Token.mk n 0) <$> n :: ns)
    /\ turn (sess w') = Some 0
    /\ awaiting_answer (sess w') = awaiting_answer (sess w)
    /\ current_question (sess w') = current_question (sess w)
    /\ last_roll (sess w') = last_roll (sess w)
    /\ flashes w' = flashes w.
Proof.
  intros Hf. pose proof (collect_names_length f) as Hlen.
  unfold setup. rewrite Hf in *.
  assert ((Z.of_nat (length (n :: ns)) =? 0) = false) as ->
    by (apply Z.eqb_neq; simpl; lia).
  assert ((MAX_PLAYERS <? Z.of_nat (length (n :: ns))) = false) as ->
    by (apply Z.ltb_ge; lia).
  eexists. split; [reflexivity|]. destruct w as [s d g now fl rec].
  repeat split; reflexivity.
Qed.

(** Names are stripped, blank ones skipped, and the rest cut to 20
    characters. *)
Lemma setup_trims_and_truncates :
  collect_names
    [ (str "name1", str "  Al  "); (str "name2", str "   ");
      (str "name4", str "abcdefghijklmnopqrstuvwxyz") ]
  = [str "Al"; str "abcdefghijklmnopqrst"].
Proof. vm_compute. reflexivity. Qed.

(** A setup while an answer is pending leaves it pending. *)
Lemma setup_keeps_pending_answer :
  let w' := exec (setup two_als) near_finish in
  awaiting_answer (sess w') = Some true
  /\ last_roll (sess w') = Some (Some 5)
  /\ sess (exec roll w') = sess w'.
Proof. vm_compute. repeat split; reflexivity. Qed.

(** C6, what the code does: the test for more than four names can never
    succeed, whatever is submitted; a submission with five names is set
    up with its first four, without a warning. *)
Theorem setup_surplus_name_not_rejected :
  (forall f, (MAX_PLAYERS <? Z.of_nat (length (collect_names f))) = false)
  /\ (exists w',
        setup five_names started_world = (Return redirect_index, w')
        /\ players (sess w') =
             Some [Token.mk (str "Ann") 0; Token.mk (str "Bob") 0;
                   Token.mk (str "Cy") 0; Token.mk (str "Dee") 0]
        /\ turn (sess w') = Some 0
        /\ flashes w' = []).
Proof.
  split.
  - intros f. apply Z.ltb_ge, collect_names_length.
  - eexists. split; [vm_compute; reflexivity|]. repeat split; reflexivity.
Qed.

(** * The ranked query *)

Lemma str_leb_total s t : str_leb s t = true \/ str_leb t s = true.
Proof.
  revert t. induction s as [|c s IH]; intros [|d t]; simpl; auto.
  destruct (N.lt_total c d) as [Hlt|[->|Hgt]].
  - left. apply N.ltb_lt in Hlt. by rewrite Hlt.
  - rewrite N.ltb_irrefl, N.eqb_refl. simpl. apply IH.
  - right. apply N.ltb_lt in Hgt. by rewrite Hgt.
Qed.

Lemma str_leb_trans s t u :
  str_leb s t = true -> str_leb t u = true -> str_leb s u = true.
Proof.
  revert t u. induction s as [|c s IH]; intros [|d t] [|e u]; simpl; try done.
  rewrite !orb_true_iff, !andb_true_iff, !N.ltb_lt, !N.eqb_eq.
  intros [Hcd|[-> Hst]] [Hde|[-> Htu]].
  - left. lia.
  - by left.
  - by left.
  - right. split; [done|]. by eapply IH.
Qed.

(** [rank] spelled out: more wins first, and for equal wins the smaller
    name first. *)
Lemma rank_spec r1 r2 :
  rank r1 r2 <->
  Player.wins r2 < Player.wins r1
  \/ (Player.wins r1 = Player.wins r2
      /\ str_leb (Player.name r1) (Player.name r2) = true).
Proof.
  unfold rank, rank_leb.
  by rewrite orb_true_iff, andb_true_iff, Z.ltb_lt, Z.eqb_eq.
Qed.

Global Instance rank_total : Total rank.
Proof.
  intros r1 r2. rewrite !rank_spec.
  destruct (Z.lt_total (Player.wins r1) (Player.wins r2)) as [?|[Heq|?]];
    [by right; left | | by left; left].
  destruct (str_leb_total (Player.name r1) (Player.name r2)); [left|right];
    right; split; done.
Qed.

Global Instance rank_trans : Transitive rank.
Proof.
  intros r1 r2 r3. rewrite !rank_spec.
  intros [H12|[E12 N12]] [H23|[E23 N23]].
  - left. lia.
  - left. lia.
  - left. lia.
  - right. split; [lia|]. by eapply str_leb_trans.
Qed.

Section Scoreboard_properties.
Context `{SqlReal}.

(** C5, as the code has it: for every table and every limit with
    [0 <= limit < 2^63], [top_scoreboard] returns the first [limit] rows
    of a rearrangement of the table that is sorted by wins descending,
    ties broken by name ascending; so at most [limit] rows; each row
    carries [win_rate = ROUND(100.0 * wins / games_played, 1)] when
    [games_played > 0] and the integer 0 otherwise; and the database is
    handed back unchanged. Players A (3 wins), B (3 wins) and C (5 wins)
    come out in the order C, A, B. *)
Theorem top_scoreboard_ranked :
  (forall (limit : Z) (d : database),
     0 <= limit < 2 ^ 63 ->
     exists ranked,
       ranked ≡ₚ players_table d
       /\ StronglySorted rank ranked
       /\ top_scoreboard limit d =
            (Return (select_row <$> take (Z.to_nat limit) ranked), d)
       /\ Z.of_nat (length (select_row <$> take (Z.to_nat limit) ranked))
            <= limit
       /\ forall r, r ∈ ranked ->
            Row.win_rate (select_row r) =
            if 0 <? Player.games_played r
            then SqlRealV
                   (ROUND (real_div (real_mul (real_of_int 100)
                                              (real_of_int (Player.wins r)))
                                    (real_of_int (Player.games_played r))) 1)
            else SqlInteger 0)
  /\ (forall now,
        exists rows,
          top_scoreboard 50 (sample_table now) = (Return rows, sample_table now)
          /\ Row.name <$> rows = [str "C"; str "A"; str "B"]
          /\ Row.wins <$> rows = [5; 3; 3]).
Proof.
  split.
  - intros limit d [Hlo Hhi].
    exists (merge_sort rank (players_table d)).
    split; [apply merge_sort_Permutation|].
    split; [apply StronglySorted_merge_sort; apply _|].
    split.
    + unfold top_scoreboard, sql_limit.
      assert ((limit <? - 2 ^ 63) = false) as -> by (apply Z.ltb_ge; lia).
      assert ((2 ^ 63 - 1 <? limit) = false) as -> by (apply Z.ltb_ge; lia).
      assert ((limit <? 0) = false) as -> by (apply Z.ltb_ge; lia).
      done.
    + split; [|done].
      rewrite length_fmap, length_take. lia.
  - intros now. eexists. split; [reflexivity|]. split; reflexivity.
Qed.

End Scoreboard_properties.

Lemma top_scoreboard_ranked_witness :
  let d := sample_table (str "2024-01-01T00:00:00") in
  0 <= 2 < 2 ^ 63
  /\ exists ranked,
       ranked ≡ₚ players_table d
       /\ StronglySorted rank ranked
       /\ @top_scoreboard exact_arith 2 d =
            (Return (select_row <$> take (Z.to_nat 2) ranked), d)
       /\ Z.of_nat (length (@select_row exact_arith
                              <$> take (Z.to_nat 2) ranked)) <= 2
       /\ forall r, r ∈ ranked ->
            Row.win_rate (@select_row exact_arith r) =
            if 0 <? Player.games_played r
            then SqlRealV
                   (ROUND (real_div (real_mul (real_of_int 100)
                                              (real_of_int (Player.wins r)))
                                    (real_of_int (Player.games_played r))) 1)
            else SqlInteger 0.
Proof.
  intros d.
  assert (0 <= 2 < 2 ^ 63) as Hlimit by lia.
  split; [exact Hlimit|].
  exact (proj1 (@top_scoreboard_ranked exact_arith) 2 d Hlimit).
Defined.

(** With exact arithmetic the two best of the sample table are C with
    55.6 percent and A with 75 percent. *)
Lemma top_scoreboard_sample :
  (@top_scoreboard exact_arith 2 (sample_table [])).1
  = Return [ Row.mk exact_arith (str "C") 5 9
                    (@SqlRealV exact_arith (278 # 5)%Q);
             Row.mk exact_arith (str "A") 3 4
                    (@SqlRealV exact_arith (75 # 1)%Q) ].
Proof. vm_compute. reflexivity. Qed.

(** C5 as stated fails for a negative limit: SQLite reads LIMIT -1 as
    "no limit", so a table of three players yields three rows. *)
Lemma top_scoreboard_ranked_counterexample :
  exists rows,
    @top_scoreboard exact_arith (-1) (sample_table []) =
      (Return rows, sample_table [])
    /\ length rows = 3%nat
    /\ ~ (Z.of_nat (length rows) <= -1).
Proof. eexists. split; [reflexivity|]. split; [reflexivity|]. simpl. lia. Qed.

(** A limit beyond the 64-bit range is refused when it is bound. *)
Lemma top_scoreboard_overflow `{SqlReal} d :
  top_scoreboard (2 ^ 63) d = (Raise OverflowError, d).
Proof. reflexivity. Qed.

(** * Question import *)

Lemma collect_items rows items :
  fold_left
    (fun items row =>
       let q := column row (str "q") (str "question") in
       let a := column row (str "a") (str "answer") in
       if nonempty q && nonempty a
       then items ++ [Question.mk q a]
       else items)
    rows items
  = items ++ omap complete_item rows.
Proof.
  revert items. induction rows as [|row rows IH]; intros items; simpl.
  - by rewrite app_nil_r.
  - rewrite IH. unfold complete_item. cbv zeta.
    destruct (nonempty _ && nonempty _); simpl; [|done].
    by rewrite <- app_assoc.
Qed.

Lemma complete_item_Some row item :
  complete_item row = Some item <->
  nonempty (column row (str "q") (str "question")) = true
  /\ nonempty (column row (str "a") (str "answer")) = true
  /\ item = Question.mk (column row (str "q") (str "question"))
                        (column row (str "a") (str "answer")).
Proof.
  unfold complete_item. cbv zeta.
  destruct (nonempty (column row (str "q") (str "question")));
    destruct (nonempty (column row (str "a") (str "answer"))); simpl;
    split; try (intros [= <-]; done); try (intros (? & ? & ?); done).
  intros (_ & _ & ->). done.
Qed.



(** Header names are matched as written: [Q,A] is not recognised. Input
    without a usable header yields no item. *)
Lemma parse_csv_text_header_case :
  parse_csv_text (str "Q,A" ++ [LF] ++ str "1,2") = Return []
  /\ parse_csv_text (str "hello world") = Return []
  /\ parse_csv_text (str "q,answer" ++ [LF] ++ str "1,2")
     = Return [Question.mk (str "1") (str "2")].
Proof. vm_compute. repeat split; reflexivity. Qed.


(** * Administrative routes *)

(** C9: when no admin token is configured, or when the token supplied by
    the client differs from the configured one, both administrative routes
    raise the 403 of [abort] and hand back the world unchanged: nothing
    was deleted. *)
Theorem admin_requires_configured_token ADMIN_TOKEN req w :
  ADMIN_TOKEN = None \/ supplied_token req <> ADMIN_TOKEN ->
  admin_reset ADMIN_TOKEN req w = (Raise (Abort 403), w)
  /\ admin_delete_player ADMIN_TOKEN req w = (Raise (Abort 403), w).
Proof.
  intros Hcase.
  assert (require_admin ADMIN_TOKEN req w = (Raise (Abort 403), w)) as Hreq.
  { unfold require_admin. destruct Hcase as [->|Hne]; [done|].
    rewrite (bool_decide_eq_false_2 _ Hne). by rewrite orb_true_r. }
  unfold admin_reset, admin_delete_player.
  cbv beta delta [mbind M_bind]. by rewrite Hreq.
Qed.

Lemma admin_requires_configured_token_witness :
  let guess := mkrequest (Some (str "guess")) None (Some (str "A")) in
  (@None pystr = None \/ supplied_token guess <> None)
  /\ (admin_reset None guess stored_world = (Raise (Abort 403), stored_world)
      /\ admin_delete_player None guess stored_world
         = (Raise (Abort 403), stored_world))
  /\ (Some (str "s3cret") = None
      \/ supplied_token guess <> Some (str "s3cret"))
  /\ (admin_reset (Some (str "s3cret")) guess stored_world
        = (Raise (Abort 403), stored_world)
      /\ admin_delete_player (Some (str "s3cret")) guess stored_world
         = (Raise (Abort 403), stored_world)).
Proof.
  intros guess.
  assert (@None pystr = None \/ supplied_token guess <> None) as H1
    by (left; reflexivity).
  assert (Some (str "s3cret") = None
          \/ supplied_token guess <> Some (str "s3cret")) as H2
    by (right; vm_compute; discriminate).
  split; [exact H1|].
  split; [exact (admin_requires_configured_token None guess stored_world H1)|].
  split; [exact H2|].
  exact (admin_requires_configured_token (Some (str "s3cret")) guess
           stored_world H2).
Defined.

(** The guard does let the configured token through: the table is
    cleared, or the named row deleted. An empty configured token admits
    nobody. *)
Lemma admin_authorized :
  let ok := mkrequest None (Some (str "s3cret")) (Some (str " A ")) in
  players_table (db (exec (admin_reset (Some (str "s3cret")) ok) stored_world))
    = []
  /\ names (db (exec (admin_delete_player (Some (str "s3cret")) ok)
                     stored_world))
     = [str "B"; str "C"]
  /\ admin_reset (Some []) (mkrequest (Some []) None None) stored_world
     = (Raise (Abort 403), stored_world).
Proof. vm_compute. repeat split; reflexivity. Qed.

(** * Sessions over sequences of requests *)

Lemma consistent_empty : consistent empty_session.
Proof. repeat split; simpl; intros; done. Qed.

Lemma collect_names_ok f :
  Forall (fun n => n <> [] /\ (length n <= 20)%nat) (collect_names f).
Proof.
  unfold collect_names.
  change (range 1 (MAX_PLAYERS + 1)) with [1; 2; 3; 4].
  cbn [fold_left].
  assert (forall s, nonempty s = true ->
            take 20 s <> [] /\ (length (take 20 s) <= 20)%nat) as Hone.
  { intros [|c s] Hs; [done|]. split; [done|]. rewrite length_take. lia. }
  repeat match goal with
         | |- context [if nonempty ?s then _ else _] =>
             let E := fresh "E" in
             destruct (nonempty s) eqn:E; [apply Hone in E|]
         end;
    repeat (apply Forall_app; split); repeat apply Forall_cons;
    try apply Forall_nil; try done.
Qed.

Lemma setup_consistent f w :
  consistent (sess w) ->
  exists w',
    setup f w = (Return redirect_index, w')
    /\ consistent (sess w')
    /\ awaiting_answer (sess w') = awaiting_answer (sess w)
    /\ db w' = db w /\ recorded w' = recorded w /\ rng w' = rng w.
Proof.
  intros (Hpl & Hpend & Hpool).
  destruct (collect_names f) as [|n ns] eqn:Hnames.
  - rewrite setup_rejects_no_names by done. eexists. split; [done|].
    simpl. split; [exact (conj Hpl (conj Hpend Hpool))|done].
  - destruct (setup_initializes f w n ns Hnames)
      as (w' & Hrun & Hps & Ht & Haw & Hcq & Hlr & Hfl).
    exists w'. split; [done|].
    pose proof (collect_names_ok f) as Hok. rewrite Hnames in Hok.
    pose proof (collect_names_length f) as Hlen. rewrite Hnames in Hlen.
    assert (questions (sess w') = questions (sess w)
            /\ db w' = db w /\ recorded w' = recorded w /\ rng w' = rng w)
      as (Hqs & Hdb & Hrec & Hrng).
    { unfold setup in Hrun. rewrite Hnames in Hrun.
      assert ((Z.of_nat (length (n :: ns)) =? 0) = false) as E1
        by (apply Z.eqb_neq; simpl; lia).
      assert ((MAX_PLAYERS <? Z.of_nat (length (n :: ns))) = false) as E2
        by (apply Z.ltb_ge; lia).
      rewrite E1, E2 in Hrun. destruct w as [s d g now fl rec].
      injection Hrun as <-. done. }
    split; [|done]. split; [|split].
    + intros ps Hps'.
      assert (ps = (fun n => Token.mk n 0) <$> n :: ns) as -> by congruence.
      rewrite length_fmap. unfold MAX_PLAYERS in Hlen. split; [lia|]. split.
      * apply Forall_fmap. eapply Forall_impl; [exact Hok|].
        intros m [Hm1 Hm2]. unfold token_ok. simpl. unfold BOARD_SIZE.
        repeat split; try done; lia.
      * exists 0. split; [done|]. intros _. simpl. lia.
    + rewrite Haw, Hcq, Hlr. intros Hp. destruct (Hpend Hp) as [_ Hqr].
      split; [by rewrite Hps|done].
    + rewrite Hqs. done.
Qed.

Lemma roll_draws w ps :
  players (sess w) = Some ps -> ps <> [] ->
  truthy_flag (awaiting_answer (sess w)) = false ->
  questions (sess w) <> Some [] ->
  exists w' r q,
    roll w = (Return redirect_index, w')
    /\ 1 <= r <= 6
    /\ q ∈ default DEFAULT_QUESTIONS (questions (sess w))
    /\ last_roll (sess w') = Some (Some r)
    /\ current_question (sess w') = Some (Some q)
    /\ awaiting_answer (sess w') = Some true
    /\ players (sess w') = Some ps
    /\ turn (sess w') = turn (sess w)
    /\ questions (sess w') = questions (sess w)
    /\ db w' = db w /\ recorded w' = recorded w /\ flashes w' = flashes w
    /\ draws (rng w') = draws (rng w)
    /\ cursor (rng w') = S (S (cursor (rng w))).
Proof.
  destruct w as [[ops ot oaw ocq olr om oqs] d [dr cu] now fl rec]. simpl.
  intros -> Hps Haw Hqs. destruct ps as [|p ps]; [done|].
  set (pool := default DEFAULT_QUESTIONS oqs).
  assert (exists q0 qs0, pool = q0 :: qs0) as (q0 & qs0 & Hpool).
  { subst pool. destruct oqs as [[|q0 qs0]|]; simpl; eauto. done. }
  destruct (lookup_lt_is_Some_2 pool
              (N.to_nat (dr (S cu)) `mod` length pool)%nat) as [q Hq].
  { apply Nat.mod_upper_bound. by rewrite Hpool. }
  destruct (lookup_lt_is_Some_2 (p :: ps)
              (Z.to_nat (default 0 ot `mod` Z.of_nat (length (p :: ps)))))
    as [pl Hpl].
  { pose proof (Z.mod_pos_bound (default 0 ot) (Z.of_nat (length (p :: ps)))).
    cbn [length] in *. lia. }
  assert (1 <= 1 + Z.of_N (dr cu) `mod` (6 - 1 + 1) <= 6) as Hdie.
  { pose proof (Z.mod_pos_bound (Z.of_N (dr cu)) (6 - 1 + 1)). lia. }
  apply list_elem_of_lookup_2 in Hq as Hin.
  run_handler. destruct oaw as [[|]|]; try done.
  all: run_handler; fold pool; rewrite Hpool; run_handler; rewrite <- Hpool;
    cbv beta iota delta [draws cursor]; rewrite Hq; run_handler; rewrite Hpl;
    run_handler; eexists _, _, q; (split; [reflexivity|]);
    cbv beta iota delta [sess players turn awaiting_answer current_question
                         last_roll questions db recorded flashes rng
                         draws cursor];
    repeat split; try done; lia.
Qed.

Lemma truthy_players_Some s :
  truthy_players (players s) = true ->
  exists p ps, players s = Some (p :: ps).
Proof. destruct (players s) as [[|p ps]|]; simpl; try done. eauto. Qed.

Lemma roll_consistent w :
  consistent (sess w) ->
  exists w',
    roll w = (Return redirect_index, w')
    /\ consistent (sess w')
    /\ (awaiting_answer (sess w) <> None -> awaiting_answer (sess w') <> None)
    /\ db w' = db w /\ recorded w' = recorded w.
Proof.
  intros Hc.
  destruct (truthy_players (players (sess w))) eqn:Hp;
    [destruct (truthy_flag (awaiting_answer (sess w))) eqn:Haw|].
  - exists w. split; [|done].
    destruct w as [[ops ot oaw ocq olr om oqs] d g now fl rec]. simpl in *.
    run_handler. destruct ops as [[|p ps]|]; try done.
    by destruct oaw as [[|]|].
  - destruct (truthy_players_Some _ Hp) as (p & ps & Hps).
    destruct Hc as (Hpl & Hpend & Hpool).
    destruct (roll_draws w (p :: ps) Hps) as
      (w' & r & q & Hrun & Hr & Hq & Hlr & Hcq & Haw' & Hps' & Ht & Hqs
       & Hdb & Hrec & _); [done | done | |].
    { intros Hqs. by destruct (Hpool _ Hqs). }
    exists w'. split; [done|]. split; [|by rewrite Haw'].
    split; [|split].
    + intros ps0 Hps0. rewrite Ht. apply Hpl. congruence.
    + intros _. rewrite Hps'. split; [done|]. eauto.
    + rewrite Hqs. done.
  - destruct w as [[ops ot oaw ocq olr om oqs] d g now fl rec].
    simpl in *. destruct ops as [[|p ps]|]; try done.
    all: eexists; (split; [run_handler; reflexivity|]); done.
Qed.

Lemma moved_on_board correct p r :
  0 <= p <= BOARD_SIZE -> 0 <= r -> 0 <= moved correct p r <= BOARD_SIZE.
Proof. unfold moved, BOARD_SIZE. destruct correct; lia. Qed.

Lemma answer_consistent ans w :
  consistent (sess w) ->
  exists w',
    answer ans w = (Return redirect_index, w')
    /\ consistent (sess w')
    /\ (awaiting_answer (sess w) <> None -> awaiting_answer (sess w') <> None).
Proof.
  intros Hc. destruct (truthy_flag (awaiting_answer (sess w))) eqn:Haw.
  - destruct Hc as (Hpl & Hpend & Hpool).
    destruct (Hpend Haw) as (Hp & q & r & Hcq & Hlr & Hr).
    destruct (truthy_players_Some _ Hp) as (p & ps & Hps).
    destruct (Hpl _ Hps) as (Hlen & Hok & t & Ht & Htb).
    assert (awaiting_answer (sess w) = Some true) as Haw'.
    { by destruct (awaiting_answer (sess w)) as [[|]|]. }
    assert (exists i, current_player_index (sess w) = Some i) as [i Hi].
    { unfold current_player_index. rewrite Hps. eauto. }
    destruct (current_player_index_lt _ _ _ Hps Hi) as [Hlt _].
    destruct (lookup_lt_is_Some_2 _ _ Hlt) as [pl Hplk].
    destruct (answer_resolves w ans (p :: ps) t (Some r) q i pl
                Haw' Hcq Hlr Hps Ht Hi Hplk)
      as (w' & Hrun & Hps' & Haw2 & _ & _ & Hqs & _ & Hend).
    exists w'. split; [done|]. split; [|by rewrite Haw2].
    set (p' := moved _ _ _) in *.
    assert (token_ok pl) as (Hpos & Hname & Hnlen).
    { eapply Forall_lookup_1; eauto. }
    assert (0 <= p' <= BOARD_SIZE) as Hp'.
    { apply moved_on_board; [done | simpl; lia]. }
    split; [|split].
    + intros ps0 Hps0. rewrite Hps' in Hps0. injection Hps0 as <-.
      rewrite length_insert. split; [done|]. split.
      * apply Forall_insert; [done|]. unfold token_ok. simpl. done.
      * assert (0 < Z.of_nat (length (p :: ps))) as Hpos' by (simpl; lia).
        destruct (BOARD_SIZE <=? p').
        -- destruct Hend as (Ht' & _). exists t. split; [done|].
           intros _. by apply Htb.
        -- destruct Hend as (Ht' & _). eexists. split; [exact Ht'|].
           intros _. by apply Z.mod_pos_bound.
    + rewrite Haw2. done.
    + rewrite Hqs. done.
  - exists w. split; [|done].
    destruct w as [[ops ot oaw ocq olr om oqs] d g now fl rec]. simpl in *.
    run_handler. by destruct oaw as [[|]|].
Qed.

Lemma consistent_new_game w : consistent (sess (exec new_game w)).
Proof.
  destruct w as [s d g now fl rec]. unfold exec. simpl.
  split; [|split]; simpl.
  - intros ps [= <-]. split; [simpl; lia|]. split; [done|]. exists 0. done.
  - done.
  - intros qs [= <-]. split; [done|]. vm_compute. discriminate.
Qed.

Lemma reset_returns w :
  reset w = (Return redirect_index, exec new_game w).
Proof. by destruct w. Qed.

Lemma parse_csv_text_raises text e :
  parse_csv_text text = Raise e -> e = CsvError.
Proof.
  unfold parse_csv_text, DictReader. cbv zeta.
  destruct (negb (nonempty (strip text))); [done|].
  destruct (reader_rows parse_reset (readlines (strip text))) as [[|h rows]|];
    simpl; congruence.
Qed.

Ltac run_request :=
  cbv beta iota zeta delta
    [upload_questions lift_result index call_top_scoreboard handle exec];
  run_handler.

Lemma upload_questions_raises file_text pasted_field w e :
  submitted_items file_text pasted_field = Raise e ->
  upload_questions file_text pasted_field w = (Raise e, w).
Proof.
  unfold submitted_items. destruct w as [s d g now fl rec].
  destruct file_text as [data|].
  - destruct (parse_csv_text data) as [a|e'] eqn:Ha.
    + cbv zeta. destruct (nonempty (strip (default [] pasted_field))) eqn:Hn.
      * destruct (parse_csv_text (strip (default [] pasted_field)))
          as [b|e''] eqn:Hb; [done|].
        intros [= ->]. run_request. rewrite Ha. run_request.
        rewrite Hn, Hb. done.
      * done.
    + intros [= ->]. run_request. by rewrite Ha.
  - cbv zeta. destruct (nonempty (strip (default [] pasted_field))) eqn:Hn.
    + destruct (parse_csv_text (strip (default [] pasted_field)))
        as [b|e''] eqn:Hb; [done|].
      intros [= ->]. run_request. rewrite Hn, Hb. done.
    + done.
Qed.

Lemma upload_questions_returns file_text pasted_field w items :
  submitted_items file_text pasted_field = Return items ->
  upload_questions file_text pasted_field w =
    (Return redirect_index,
     match items with
     | [] =>
         mkworld (sess w) (db w) (rng w) (utcnow w)
           (flashes w
            ++ [str "No questions found. Use CSV with headers q,a or "
                ++ str "question,answer."])
           (recorded w)
     | _ :: _ =>
         let combined :=
           take (Z.to_nat MAX_QUESTIONS_IN_SESSION)
                (default [] (questions (sess w)) ++ items) in
         mkworld (set_questions combined (sess w)) (db w) (rng w) (utcnow w)
           (flashes w
            ++ [str "Loaded " ++ str_of_int (Z.of_nat (length items))
                ++ str " questions. Now "
                ++ str_of_int (Z.of_nat (length combined))
                ++ str " total."])
           (recorded w)
     end).
Proof.
  unfold submitted_items. destruct w as [s d g now fl rec].
  destruct file_text as [data|].
  - destruct (parse_csv_text data) as [a|e'] eqn:Ha; [|done].
    cbv zeta. destruct (nonempty (strip (default [] pasted_field))) eqn:Hn.
    + destruct (parse_csv_text (strip (default [] pasted_field)))
        as [b|e''] eqn:Hb; [|done].
      intros [= <-]. run_request. rewrite Ha. run_request.
      rewrite Hn, Hb. run_request. by destruct (a ++ b).
    + intros [= <-]. run_request. rewrite Ha. run_request. rewrite Hn.
      run_request. by destruct (a ++ []).
  - cbv zeta. destruct (nonempty (strip (default [] pasted_field))) eqn:Hn.
    + destruct (parse_csv_text (strip (default [] pasted_field)))
        as [b|e''] eqn:Hb; [|done].
      intros [= <-]. run_request. rewrite Hn, Hb. run_request.
      by destruct b.
    + intros [= <-]. run_request. rewrite Hn. done.
Qed.

(** The sample sessions are consistent. *)
Lemma consistent_near_finish : consistent (sess near_finish).
Proof.
  split; [|split].
  - intros ps [= <-]. split; [cbn [length]; lia|]. split.
    + repeat constructor; try discriminate; vm_compute; congruence.
    + exists 0. split; [reflexivity|]. cbn [length]. lia.
  - intros _. split; [reflexivity|]. eexists _, 5.
    split; [reflexivity|]. split; [reflexivity|lia].
  - intros qs [= <-]. split; [discriminate|]. by vm_compute.
Qed.

Lemma started_started_world : started (sess started_world).
Proof.
  split; [apply consistent_new_game | done].
Qed.

Section Requests.
Context `{SqlReal}.

Lemma top_scoreboard_50 d :
  exists rows,
    top_scoreboard 50 d = (Return rows, d) /\ (length rows <= 50)%nat.
Proof.
  eexists. split; [reflexivity|].
  rewrite length_fmap. unfold sql_limit. simpl. rewrite length_take. lia.
Qed.

(** [index] on a session that holds the keys it reads. *)
Lemma index_reads w ps t aw :
  players (sess w) = Some ps ->
  turn (sess w) = Some t ->
  awaiting_answer (sess w) = Some aw ->
  exists pg,
    index w = (Return pg, w)
    /\ page_players pg = ps /\ page_turn pg = t
    /\ page_awaiting_answer pg = aw
    /\ page_current_question pg = mjoin (current_question (sess w))
    /\ page_last_roll pg = mjoin (last_roll (sess w))
    /\ page_winner pg = winner (sess w)
    /\ (top_scoreboard 50 (db w)).1 = Return (page_scoreboard pg)
    /\ (length (page_scoreboard pg) <= 50)%nat.
Proof.
  destruct w as [[ops ot oaw ocq olr om oqs] d g now fl rec]. simpl.
  intros -> -> ->. destruct (top_scoreboard_50 d) as (rows & Hrows & Hlen).
  run_request. eexists. split; [rewrite Hrows; reflexivity|].
  repeat split; try done. simpl in Hrows. by injection Hrows as <-.
Qed.

Lemma index_first_visit w :
  players (sess w) = None ->
  exists pg,
    index w = (Return pg, exec new_game w)
    /\ page_players pg = [] /\ page_turn pg = 0
    /\ page_awaiting_answer pg = false
    /\ page_winner pg = None
    /\ page_questions_count pg = 10.
Proof.
  destruct w as [[ops ot oaw ocq olr om oqs] d g now fl rec]. simpl.
  intros ->. destruct (top_scoreboard_50 d) as (rows & Hrows & Hlen).
  run_request. eexists. split; [rewrite Hrows; reflexivity|]. done.
Qed.

Lemma index_key_error w ps :
  players (sess w) = Some ps ->
  turn (sess w) = None \/ awaiting_answer (sess w) = None ->
  index w = (Raise KeyError, w).
Proof.
  destruct w as [[ops ot oaw ocq olr om oqs] d g now fl rec]. simpl.
  intros -> [-> | ->]; run_request; [done|]. by destruct ot.
Qed.

Lemma exec_then_unit {A} (m : M A) w :
  exec (m;; mret tt) w = exec m w.
Proof.
  unfold exec. cbv beta delta [mbind M_bind mret M_ret].
  by destruct (m w) as [[a|e] w'].
Qed.

Lemma result_then_unit {A} (m : M A) w a w' :
  m w = (Return a, w') -> (m;; mret tt) w = (Return tt, w').
Proof. intros Hm. cbv beta delta [mbind M_bind mret M_ret]. by rewrite Hm. Qed.

Lemma exec_index_session w :
  sess (exec index w) = sess w \/ exec index w = exec new_game w.
Proof.
  destruct (players (sess w)) as [ps|] eqn:Hps.
  - left. destruct (turn (sess w)) as [t|] eqn:Ht;
      [destruct (awaiting_answer (sess w)) as [aw|] eqn:Haw|].
    + destruct (index_reads w ps t aw) as (pg & Hrun & _); [done..|].
      unfold exec. by rewrite Hrun.
    + unfold exec. rewrite (index_key_error w ps); auto.
    + unfold exec. rewrite (index_key_error w ps); auto.
  - right. destruct (index_first_visit w Hps) as (pg & Hrun & _).
    unfold exec at 1. by rewrite Hrun.
Qed.

Lemma handle_consistent a w :
  consistent (sess w) -> consistent (sess (exec (handle a) w)).
Proof.
  intros Hc. destruct a as [|f| |ans| |file pasted]; unfold handle;
    rewrite exec_then_unit.
  - destruct (exec_index_session w) as [-> | ->]; [done|].
    apply consistent_new_game.
  - destruct (setup_consistent f w Hc) as (w' & Hrun & Hc' & _).
    unfold exec. by rewrite Hrun.
  - destruct (roll_consistent w Hc) as (w' & Hrun & Hc' & _).
    unfold exec. by rewrite Hrun.
  - destruct (answer_consistent ans w Hc) as (w' & Hrun & Hc' & _).
    unfold exec. by rewrite Hrun.
  - unfold exec. rewrite reset_returns. apply consistent_new_game.
  - destruct (submitted_items file pasted) as [items|e] eqn:Hitems.
    + unfold exec. rewrite (upload_questions_returns _ _ _ _ Hitems).
      destruct items as [|it items]; [done|]. cbn [snd sess].
      destruct Hc as (Hpl & Hpend & Hpool). split; [|split]; try done.
      intros qs [= <-]. split.
      * unfold MAX_QUESTIONS_IN_SESSION.
        destruct (default [] (questions (sess w))); done.
      * rewrite length_take. unfold MAX_QUESTIONS_IN_SESSION. lia.
    + unfold exec. by rewrite (upload_questions_raises _ _ _ _ Hitems).
Qed.

Lemma serve_app acts acts' w :
  serve (acts ++ acts') w = serve acts' (serve acts w).
Proof. unfold serve. apply fold_left_app. Qed.

Lemma serve_consistent acts w :
  consistent (sess w) -> consistent (sess (serve acts w)).
Proof.
  revert w. induction acts as [|a acts IH]; intros w Hc; [done|].
  apply IH. by apply handle_consistent.
Qed.

Lemma handle_started a w :
  started (sess w) -> started (sess (exec (handle a) w)).
Proof.
  intros [Hc Hk]. split; [by apply handle_consistent|].
  destruct a as [|f| |ans| |file pasted]; unfold handle;
    rewrite exec_then_unit.
  - destruct (exec_index_session w) as [-> | ->]; [done|].
    by destruct w.
  - destruct (setup_consistent f w Hc) as (w' & Hrun & _ & Haw & _).
    unfold exec. rewrite Hrun. cbn [snd]. by rewrite Haw.
  - destruct (roll_consistent w Hc) as (w' & Hrun & _ & Haw & _).
    unfold exec. rewrite Hrun. by apply Haw.
  - destruct (answer_consistent ans w Hc) as (w' & Hrun & _ & Haw).
    unfold exec. rewrite Hrun. by apply Haw.
  - unfold exec. rewrite reset_returns. by destruct w.
  - destruct (submitted_items file pasted) as [items|e] eqn:Hitems.
    + unfold exec. rewrite (upload_questions_returns _ _ _ _ Hitems).
      by destruct items.
    + unfold exec. by rewrite (upload_questions_raises _ _ _ _ Hitems).
Qed.

(** X1: a session that is started (consistent, with the key
    [awaiting_answer] present) stays started under every sequence of the
    requests index, setup, roll, answer, reset and upload_questions; so
    after any such sequence the session holds at most four tokens, every
    token stands on a square from 0 to [BOARD_SIZE] and carries a name of
    1 to 20 characters. *)
Theorem served_session_stays_started acts w :
  started (sess w) ->
  started (sess (serve acts w))
  /\ forall ps, players (sess (serve acts w)) = Some ps ->
       (length ps <= 4)%nat
       /\ Forall (fun p => 0 <= Token.pos p <= BOARD_SIZE
                           /\ (1 <= length (Token.name p) <= 20)%nat)
                 ps.
Proof.
  intros Hs.
  assert (started (sess (serve acts w))) as Hs'.
  { revert w Hs. induction acts as [|a acts IH]; intros w Hs; [done|].
    apply IH. by apply handle_started. }
  split; [done|]. intros ps Hps.
  destruct Hs' as [(Hpl & _) _]. destruct (Hpl ps Hps) as (Hlen & Hok & _).
  split; [done|]. eapply Forall_impl; [exact Hok|].
  intros p (Hpos & Hne & Hle). split; [done|].
  destruct (Token.name p); [done | simpl in *; lia].
Qed.

(** X2: a reset, and a first visit of the index page (no key [players]
    in the session), leave exactly the session that [new_game] builds; this
    session is started, and the scoreboard store is not written. *)
Theorem visit_or_reset_starts_session a w :
  a = Reset \/ (a = Visit /\ players (sess w) = None) ->
  sess (exec (handle a) w) = sess (exec new_game w)
  /\ started (sess (exec (handle a) w))
  /\ db (exec (handle a) w) = db w.
Proof.
  intros Ha.
  assert (exec (handle a) w = exec new_game w) as ->.
  { destruct Ha as [-> | [-> Hps]]; unfold handle; rewrite exec_then_unit.
    - unfold exec at 1. by rewrite reset_returns.
    - destruct (index_first_visit w Hps) as (pg & Hrun & _).
      unfold exec at 1. by rewrite Hrun. }
  split; [done|]. split; [|by destruct w].
  split; [apply consistent_new_game | by destruct w].
Qed.

(** X3: on a started session no request raises, with one exception: an
    upload whose text the CSV reader rejects raises the reader's error and
    leaves the world as it was. *)
Theorem started_requests_return a w :
  started (sess w) ->
  match a with
  | Upload file_text pasted_field =>
      (handle a w).1 = Return tt
      \/ (handle a w = (Raise CsvError, w))
  | _ => (handle a w).1 = Return tt
  end.
Proof.
  intros [Hc Hk].
  destruct a as [|f| |ans| |file pasted]; unfold handle.
  - destruct Hc as (Hpl & _).
    destruct (players (sess w)) as [ps|] eqn:Hps.
    + destruct (Hpl ps eq_refl) as (_ & _ & t & Ht & _).
      destruct (awaiting_answer (sess w)) as [aw|] eqn:Haw; [|done].
      destruct (index_reads w ps t aw Hps Ht Haw) as (pg & Hrun & _).
      by rewrite (result_then_unit _ _ _ _ Hrun).
    + destruct (index_first_visit w Hps) as (pg & Hrun & _).
      by rewrite (result_then_unit _ _ _ _ Hrun).
  - destruct (setup_consistent f w Hc) as (w' & Hrun & _).
    by rewrite (result_then_unit _ _ _ _ Hrun).
  - destruct (roll_consistent w Hc) as (w' & Hrun & _).
    by rewrite (result_then_unit _ _ _ _ Hrun).
  - destruct (answer_consistent ans w Hc) as (w' & Hrun & _).
    by rewrite (result_then_unit _ _ _ _ Hrun).
  - by rewrite (result_then_unit _ _ _ _ (reset_returns w)).
  - destruct (submitted_items file pasted) as [items|e] eqn:Hitems.
    + left. by rewrite (result_then_unit _ _ _ _
                          (upload_questions_returns _ _ _ _ Hitems)).
    + right. cbv beta delta [mbind M_bind].
      rewrite (upload_questions_raises _ _ _ _ Hitems).
      f_equal. f_equal. unfold submitted_items in Hitems.
      destruct file as [data|].
      * destruct (parse_csv_text data) as [x|e'] eqn:Hd.
        -- cbv zeta in Hitems.
           destruct (nonempty (strip (default [] pasted)));
             [|done].
           destruct (parse_csv_text (strip (default [] pasted)))
             as [y|e''] eqn:Hp; [done|].
           injection Hitems as <-. by eapply parse_csv_text_raises.
        -- injection Hitems as <-. by eapply parse_csv_text_raises.
      * cbv zeta in Hitems.
        destruct (nonempty (strip (default [] pasted))); [|done].
        destruct (parse_csv_text (strip (default [] pasted)))
          as [y|e''] eqn:Hp; [done|].
        injection Hitems as <-. by eapply parse_csv_text_raises.
Qed.

(** X4: on a consistent session only an answer request can write the
    scoreboard store: index, setup, roll, reset and upload_questions leave
    the store and the trace of [record_game_result] calls unchanged. *)
Theorem only_answers_write_store a w :
  consistent (sess w) ->
  (forall ans, a <> Answer ans) ->
  db (exec (handle a) w) = db w
  /\ recorded (exec (handle a) w) = recorded w.
Proof.
  intros Hc Ha.
  destruct a as [|f| |ans| |file pasted]; unfold handle;
    rewrite exec_then_unit.
  - destruct (players (sess w)) as [ps|] eqn:Hps.
    + destruct (turn (sess w)) as [t|] eqn:Ht;
        [destruct (awaiting_answer (sess w)) as [aw|] eqn:Haw|].
      * destruct (index_reads w ps t aw) as (pg & Hrun & _); [done..|].
        unfold exec. by rewrite Hrun.
      * unfold exec. rewrite (index_key_error w ps); auto.
      * unfold exec. rewrite (index_key_error w ps); auto.
    + destruct (index_first_visit w Hps) as (pg & Hrun & _).
      unfold exec at 1 2. rewrite Hrun. by destruct w.
  - destruct (setup_consistent f w Hc) as (w' & Hrun & _ & _ & ? & ? & _).
    unfold exec. by rewrite Hrun.
  - destruct (roll_consistent w Hc) as (w' & Hrun & _ & _ & ? & ?).
    unfold exec. by rewrite Hrun.
  - by destruct (Ha ans).
  - unfold exec. rewrite reset_returns. by destruct w.
  - destruct (submitted_items file pasted) as [items|e] eqn:Hitems.
    + unfold exec. rewrite (upload_questions_returns _ _ _ _ Hitems).
      by destruct items.
    + unfold exec. by rewrite (upload_questions_raises _ _ _ _ Hitems).
Qed.

End Requests.

Lemma served_session_stays_started_witness :
  let acts := [Roll; Answer (Some (str "7")); Upload None (Some sample_import);
               Roll; Answer (Some (str "x")); Visit] in
  started (sess ready_world)
  /\ started (sess (@serve exact_arith acts ready_world))
  /\ forall ps,
       players (sess (@serve exact_arith acts ready_world)) = Some ps ->
       (length ps <= 4)%nat
       /\ Forall (fun p => 0 <= Token.pos p <= BOARD_SIZE
                           /\ (1 <= length (Token.name p) <= 20)%nat) ps.
Proof.
  intros acts.
  assert (started (sess ready_world)) as Hs.
  { exact (@handle_started exact_arith (Setup two_als) started_world
             started_started_world). }
  split; [exact Hs|].
  exact (@served_session_stays_started exact_arith acts ready_world Hs).
Defined.

Lemma visit_or_reset_starts_session_witness :
  (Visit = Reset \/ (Visit = Visit /\ players (sess first_visit) = None))
  /\ sess (exec (@handle exact_arith Visit) first_visit)
     = sess (exec new_game first_visit)
  /\ started (sess (exec (@handle exact_arith Visit) first_visit))
  /\ db (exec (@handle exact_arith Visit) first_visit) = db first_visit.
Proof.
  assert (Visit = Reset \/ (Visit = Visit /\ players (sess first_visit) = None))
    as Ha by (right; split; reflexivity).
  split; [exact Ha|].
  exact (@visit_or_reset_starts_session exact_arith Visit first_visit Ha).
Defined.

Lemma started_requests_return_witness :
  started (sess ready_world)
  /\ (@handle exact_arith Roll ready_world).1 = Return tt.
Proof.
  assert (started (sess ready_world)) as Hs.
  { exact (@handle_started exact_arith (Setup two_als) started_world
             started_started_world). }
  split; [exact Hs|].
  exact (@started_requests_return exact_arith Roll ready_world Hs).
Defined.

Lemma only_answers_write_store_witness :
  (consistent (sess ready_world) /\ forall ans, Roll <> Answer ans)
  /\ db (exec (@handle exact_arith Roll) ready_world) = db ready_world
  /\ recorded (exec (@handle exact_arith Roll) ready_world)
     = recorded ready_world.
Proof.
  assert (consistent (sess ready_world)) as Hc.
  { exact (@handle_consistent exact_arith (Setup two_als) started_world
             (consistent_new_game first_visit)). }
  assert (forall ans, Roll <> Answer ans) as Hr by discriminate.
  split; [exact (conj Hc Hr)|].
  exact (@only_answers_write_store exact_arith Roll ready_world Hc Hr).
Defined.

(** X5: on a consistent session an answer request that records a game
    result was a correct answer to the pending question, given by the
    current player, who now stands exactly on [BOARD_SIZE]; it adds one
    call to the trace, with this player as winner and all the tokens' names
    as participants. *)
Theorem win_needs_correct_answer w ans w' :
  consistent (sess w) ->
  answer ans w = (Return redirect_index, w') ->
  recorded w' <> recorded w ->
  exists q i pl ps,
    current_question (sess w) = Some (Some q)
    /\ strip (default [] ans) = strip (Question.a q)
    /\ players (sess w) = Some ps
    /\ current_player_index (sess w) = Some i
    /\ ps !! i = Some pl
    /\ player_at i (sess w') = Some (Token.mk (Token.name pl) BOARD_SIZE)
    /\ recorded w' = recorded w ++ [(Token.name pl, Token.name <$> ps)]
    /\ db w' = record_game_result (utcnow w) (Token.name pl)
                                  (Token.name <$> ps) (db w).
Proof.
  intros Hc Hrun Hrec.
  destruct (truthy_flag (awaiting_answer (sess w))) eqn:Haw.
  - destruct Hc as (Hpl & Hpend & Hpool).
    destruct (Hpend Haw) as (Hp & q & r & Hcq & Hlr & Hr).
    destruct (truthy_players_Some _ Hp) as (p & ps & Hps).
    destruct (Hpl _ Hps) as (Hlen & Hok & t & Ht & Htb).
    assert (awaiting_answer (sess w) = Some true) as Haw'.
    { by destruct (awaiting_answer (sess w)) as [[|]|]. }
    assert (exists i, current_player_index (sess w) = Some i) as [i Hi].
    { unfold current_player_index. rewrite Hps. eauto. }
    destruct (current_player_index_lt _ _ _ Hps Hi) as [Hlt _].
    destruct (lookup_lt_is_Some_2 _ _ Hlt) as [pl Hplk].
    destruct (answer_resolves w ans (p :: ps) t (Some r) q i pl
                Haw' Hcq Hlr Hps Ht Hi Hplk)
      as (w2 & Hrun2 & Hps' & _ & _ & _ & _ & _ & Hend).
    rewrite Hrun in Hrun2. injection Hrun2 as <-.
    assert (token_ok pl) as (Hpos & _).
    { eapply Forall_lookup_1; eauto. }
    rewrite names_insert_same in Hend by done.
    set (correct := bool_decide _) in *. set (p' := moved _ _ _) in *.
    destruct (BOARD_SIZE <=? p') eqn:Hwin.
    + apply Z.leb_le in Hwin. destruct Hend as (_ & Hdb & Hrec').
      assert (correct = true /\ p' = BOARD_SIZE) as [Hcorrect Hp'].
      { subst p'. unfold moved, BOARD_SIZE, or_zero in *.
        destruct correct; [split; [done | lia] | lia]. }
      apply bool_decide_eq_true in Hcorrect.
      exists q, i, pl, (p :: ps). repeat split; try done.
      unfold player_at. rewrite Hps', Hp'. simpl.
      by rewrite list_lookup_insert_eq.
    + destruct Hend as (_ & _ & Hrec' & _). done.
  - exfalso. apply Hrec.
    assert (answer ans w = (Return redirect_index, w)) as Hsame.
    { destruct w as [[ops ot oaw ocq olr om oqs] d g now fl rec].
      simpl in *. run_handler. by destruct oaw as [[|]|]. }
    rewrite Hrun in Hsame. by injection Hsame as ->.
Qed.

Lemma win_needs_correct_answer_witness :
  let w' := exec (answer (Some (str "4"))) near_finish in
  (consistent (sess near_finish)
   /\ answer (Some (str "4")) near_finish = (Return redirect_index, w')
   /\ recorded w' <> recorded near_finish)
  /\ exists q i pl ps,
       current_question (sess near_finish) = Some (Some q)
       /\ strip (default [] (Some (str "4"))) = strip (Question.a q)
       /\ players (sess near_finish) = Some ps
       /\ current_player_index (sess near_finish) = Some i
       /\ ps !! i = Some pl
       /\ player_at i (sess w') = Some (Token.mk (Token.name pl) BOARD_SIZE)
       /\ recorded w'
          = recorded near_finish ++ [(Token.name pl, Token.name <$> ps)]
       /\ db w' = record_game_result (utcnow near_finish) (Token.name pl)
                                     (Token.name <$> ps) (db near_finish).
Proof.
  intros w'.
  assert (answer (Some (str "4")) near_finish = (Return redirect_index, w'))
    as H2 by (vm_compute; reflexivity).
  assert (recorded w' <> recorded near_finish) as H3
    by (vm_compute; discriminate).
  split; [exact (conj consistent_near_finish (conj H2 H3))|].
  exact (win_needs_correct_answer near_finish (Some (str "4")) w'
           consistent_near_finish H2 H3).
Defined.

(** * More on the scoreboard store *)

Section Store_frame.
Implicit Types (d : database) (n m w now : pystr) (ps : list pystr)
  (r : Player.t).

Lemma find_player_insert_or_ignore now d n m :
  find_player m (insert_or_ignore now d n) =
  match find_player m d with
  | Some r => Some r
  | None =>
      if decide (m = n)
      then Some (Player.mk (sqlite_sequence d + 1) n 0 0 now now)
      else None
  end.
Proof.
  destruct (decide (n ∈ names d)) as [Hin|Hin].
  - rewrite insert_or_ignore_present by done.
    destruct (find_player m d) eqn:Hf; [done|].
    apply find_player_None in Hf. by destruct (decide (m = n)) as [->|].
  - rewrite insert_or_ignore_absent by done. unfold find_player. simpl.
    rewrite find_app_has_name.
    destruct (find (has_name m) (players_table d)); [done|]. simpl.
    unfold has_name. simpl. destruct (decide (m = n)) as [->|Hne].
    + by rewrite bool_decide_eq_true_2.
    + rewrite bool_decide_eq_false_2; [done|]. congruence.
Qed.

Lemma find_player_inserts_other now ps d m :
  m ∉ ps ->
  find_player m (fold_left (insert_or_ignore now) ps d) = find_player m d.
Proof.
  revert d. induction ps as [|p ps IH]; intros d Hm; simpl; [done|].
  apply not_elem_of_cons in Hm as [Hne Hm]. rewrite IH by done.
  rewrite find_player_insert_or_ignore.
  destruct (find_player m d); [done|]. by destruct (decide (m = p)).
Qed.

Lemma find_player_update_other f d n m :
  (forall r, Player.name (f r) = Player.name r) -> m <> n ->
  find_player m (update_where_name f d n) = find_player m d.
Proof.
  intros Hf Hne. rewrite find_player_update by done.
  destruct (find_player m d) as [r|] eqn:Hr; [|done]. simpl.
  apply find_player_name in Hr. unfold has_name.
  rewrite bool_decide_eq_false_2; [done|]. congruence.
Qed.

Lemma find_player_updates_other now ps d m :
  m ∉ ps ->
  find_player m (fold_left (update_where_name (incr_games_played now)) ps d)
  = find_player m d.
Proof.
  revert d. induction ps as [|p ps IH]; intros d Hm; simpl; [done|].
  apply not_elem_of_cons in Hm as [Hne Hm]. rewrite IH by done.
  by apply find_player_update_other.
Qed.

(** X6: [record_game_result] leaves the whole row (id, counters and both
    timestamps) of every player who is neither listed nor the winner as it
    was, and creates no row for such a name. *)
Theorem record_game_result_leaves_others now w ps d m :
  m ∉ ps -> m <> w ->
  find_player m (record_game_result now w ps d) = find_player m d.
Proof.
  intros Hm Hw. unfold record_game_result.
  rewrite find_player_update_other, find_player_updates_other,
    find_player_inserts_other; done.
Qed.

Lemma record_game_result_leaves_others_witness :
  let now := str "2024-06-01T00:00:00" in
  let d := sample_table (str "2024-01-01T00:00:00") in
  ((str "C" ∉ [str "A"; str "B"]) /\ str "C" <> str "A")
  /\ find_player (str "C")
       (record_game_result now (str "A") [str "A"; str "B"] d)
     = find_player (str "C") d.
Proof.
  intros now d.
  assert (str "C" ∉ [str "A"; str "B"]) as H1 by compute_done.
  assert (str "C" <> str "A") as H2 by (vm_compute; discriminate).
  split; [exact (conj H1 H2)|].
  exact (record_game_result_leaves_others now (str "A") [str "A"; str "B"] d
           (str "C") H1 H2).
Defined.

Lemma created_of_insert now d p n :
  created_of now n (insert_or_ignore now d p) = created_of now n d.
Proof.
  unfold created_of. rewrite find_player_insert_or_ignore.
  destruct (find_player n d); [done|]. by destruct (decide (n = p)).
Qed.

Lemma created_of_update now f d p n :
  (forall r, Player.name (f r) = Player.name r) ->
  (forall r, Player.created_at (f r) = Player.created_at r) ->
  created_of now n (update_where_name f d p) = created_of now n d.
Proof.
  intros Hf Hc. unfold created_of. rewrite find_player_update by done.
  destruct (find_player n d) as [r|]; [|done]. simpl.
  by destruct (has_name p r).
Qed.

Lemma created_of_record_game_result now w ps d n :
  created_of now n (record_game_result now w ps d) = created_of now n d.
Proof.
  unfold record_game_result. rewrite created_of_update by done.
  set (d1 := fold_left (insert_or_ignore now) ps d).
  assert (created_of now n d1 = created_of now n d) as <-.
  { subst d1. revert d. induction ps as [|p ps IH]; intros d; simpl; [done|].
    by rewrite IH, created_of_insert. }
  generalize d1. clear. induction ps as [|p ps IH]; intros d; simpl; [done|].
  by rewrite IH, created_of_update.
Qed.

Lemma touched_update now f d p n :
  (forall r, Player.name (f r) = Player.name r) ->
  (forall r, Player.updated_at (f r) = now) ->
  touched now n d -> touched now n (update_where_name f d p).
Proof.
  intros Hf Hu (r & Hr & Hnow). unfold touched.
  rewrite find_player_update, Hr by done. simpl. eexists. split; [done|].
  by destruct (has_name p r).
Qed.

Lemma touched_update_self now f d n :
  (forall r, Player.name (f r) = Player.name r) ->
  (forall r, Player.updated_at (f r) = now) ->
  n ∈ names d -> touched now n (update_where_name f d n).
Proof.
  intros Hf Hu Hn. apply find_player_is_Some in Hn as [r Hr]. unfold touched.
  rewrite find_player_update, Hr by done. simpl. eexists. split; [done|].
  apply find_player_name in Hr. unfold has_name.
  by rewrite bool_decide_eq_true_2.
Qed.

Lemma touched_updates now ps d n :
  n ∈ ps -> n ∈ names d ->
  touched now n
    (fold_left (update_where_name (incr_games_played now)) ps d).
Proof.
  revert d. induction ps as [|p ps IH]; intros d Hn Hd; simpl.
  - by apply elem_of_nil in Hn.
  - destruct (decide (n ∈ ps)) as [Hin|Hout].
    + apply IH; [done|]. by rewrite names_update.
    + apply elem_of_cons in Hn as [->|?]; [|done].
      assert (touched now p (update_where_name (incr_games_played now) d p))
        as Ht by (by apply touched_update_self).
      clear IH Hd. revert Ht. generalize (update_where_name (incr_games_played now) d p).
      induction ps as [|p' ps IH]; intros d' Ht; simpl; [done|].
      apply IH.
      * intros Hin. apply Hout. by apply elem_of_cons; right.
      * by apply touched_update.
Qed.

(** X7: after [record_game_result] every listed name has a row whose
    [updated_at] is the time of the call; its [created_at] is the one it
    had before, or the time of the call when the row is new. *)
Theorem record_game_result_stamps now w ps d n :
  n ∈ ps ->
  exists r,
    find_player n (record_game_result now w ps d) = Some r
    /\ Player.updated_at r = now
    /\ Player.created_at r
       = from_option Player.created_at now (find_player n d).
Proof.
  intros Hn.
  assert (touched now n (record_game_result now w ps d)) as (r & Hr & Hu).
  { unfold record_game_result. apply touched_update; [done..|].
    apply touched_updates; [done|]. apply names_inserts. auto. }
  exists r. split; [done|]. split; [done|].
  pose proof (created_of_record_game_result now w ps d n) as Hc.
  unfold created_of in Hc. by rewrite Hr in Hc.
Qed.

Lemma record_game_result_stamps_witness :
  let now := str "2024-06-01T00:00:00" in
  let d := sample_table (str "2024-01-01T00:00:00") in
  str "B" ∈ [str "A"; str "B"]
  /\ exists r,
       find_player (str "B")
         (record_game_result now (str "A") [str "A"; str "B"] d) = Some r
       /\ Player.updated_at r = now
       /\ Player.created_at r
          = from_option Player.created_at now (find_player (str "B") d).
Proof.
  intros now d.
  assert (str "B" ∈ [str "A"; str "B"]) as H1 by (right; left).
  split; [exact H1|].
  exact (record_game_result_stamps now (str "A") [str "A"; str "B"] d
           (str "B") H1).
Defined.

Lemma total_wins_app l l' s :
  fold_right (fun r acc => Player.wins r + acc) s (l ++ l')
  = fold_right (fun r acc => Player.wins r + acc) 0 l
    + fold_right (fun r acc => Player.wins r + acc) s l'.
Proof. induction l as [|r l IH]; simpl; lia. Qed.

Lemma total_games_app l l' s :
  fold_right (fun r acc => Player.games_played r + acc) s (l ++ l')
  = fold_right (fun r acc => Player.games_played r + acc) 0 l
    + fold_right (fun r acc => Player.games_played r + acc) s l'.
Proof. induction l as [|r l IH]; simpl; lia. Qed.

Lemma totals_insert now d n :
  total_wins (insert_or_ignore now d n) = total_wins d
  /\ total_games (insert_or_ignore now d n) = total_games d.
Proof.
  destruct (decide (n ∈ names d)) as [Hin|Hin].
  - by rewrite insert_or_ignore_present.
  - rewrite insert_or_ignore_absent by done. unfold total_wins, total_games.
    simpl. rewrite total_wins_app, total_games_app. simpl. lia.
Qed.

Lemma totals_update_rows (col : Player.t -> Z) f n (l : list Player.t) :
  NoDup (Player.name <$> l) ->
  (forall r, Player.name (f r) = Player.name r) ->
  fold_right (fun r acc => col r + acc) 0
             ((fun r => if has_name n r then f r else r) <$> l)
  = fold_right (fun r acc => col r + acc) 0 l
    + from_option (fun r => col (f r) - col r) 0 (find (has_name n) l).
Proof.
  intros Hu Hf. induction l as [|r l IH]; [done|].
  rewrite fmap_cons in *. cbn [fold_right find].
  apply NoDup_cons in Hu as [Hr Hu]. rewrite IH by done.
  destruct (has_name n r) eqn:E; [|lia].
  apply has_name_true in E. subst n.
  apply find_has_name_None in Hr. rewrite Hr. simpl. lia.
Qed.

Lemma totals_update (col : Player.t -> Z) f d n :
  unique_names d ->
  (forall r, Player.name (f r) = Player.name r) ->
  fold_right (fun r acc => col r + acc) 0
             (players_table (update_where_name f d n))
  = fold_right (fun r acc => col r + acc) 0 (players_table d)
    + from_option (fun r => col (f r) - col r) 0 (find_player n d).
Proof. intros Hu Hf. by apply totals_update_rows. Qed.

Lemma totals_record_game_result now w ps d :
  unique_names d -> w ∈ ps ->
  total_wins (record_game_result now w ps d) = total_wins d + 1
  /\ total_games (record_game_result now w ps d)
     = total_games d + Z.of_nat (length ps).
Proof.
  intros Hu Hw. unfold record_game_result.
  set (d1 := fold_left (insert_or_ignore now) ps d).
  assert (unique_names d1) as Hu1 by (by apply unique_inserts).
  assert (forall n, n ∈ ps -> n ∈ names d1) as Hin1.
  { intros n Hn. apply names_inserts. auto. }
  assert (total_wins d1 = total_wins d /\ total_games d1 = total_games d)
    as [Hw1 Hg1].
  { subst d1. clear. revert d. induction ps as [|p ps IH]; intros d; [done|].
    simpl. destruct (IH (insert_or_ignore now d p)) as [-> ->].
    apply totals_insert. }
  set (upd := fold_left (update_where_name (incr_games_played now))).
  assert (forall qs d2,
            unique_names d2 -> (forall n, n ∈ qs -> n ∈ names d2) ->
            unique_names (upd qs d2) /\ names (upd qs d2) = names d2
            /\ total_wins (upd qs d2) = total_wins d2
            /\ total_games (upd qs d2)
               = total_games d2 + Z.of_nat (length qs)) as Hupd.
  { subst upd. induction qs as [|q qs IH]; intros d2 Hu2 Hin2.
    - simpl. repeat split; try done. lia.
    - cbn [fold_left].
      set (d3 := update_where_name (incr_games_played now) d2 q).
      assert (names d3 = names d2) as Hn3 by (by apply names_update).
      destruct (IH d3) as (Hu4 & Hn4 & Hw4 & Hg4).
      { unfold unique_names. by rewrite Hn3. }
      { intros n Hn. rewrite Hn3. apply Hin2. by apply elem_of_cons; right. }
      split; [done|]. split; [congruence|].
      assert (q ∈ names d2) as Hq by (apply Hin2, list_elem_of_here).
      apply find_player_is_Some in Hq as [r Hr].
      rewrite Hw4, Hg4. unfold total_wins, total_games, d3.
      rewrite !totals_update, Hr by done. simpl length. simpl. lia. }
  destruct (Hupd ps d1 Hu1 Hin1) as (Hu2 & Hn2 & Hw2 & Hg2).
  assert (w ∈ names (upd ps d1)) as Hwn by (rewrite Hn2; auto).
  apply find_player_is_Some in Hwn as [r Hr].
  unfold total_wins, total_games.
  rewrite !totals_update, Hr by done. simpl.
  unfold total_wins, total_games in *. lia.
Qed.

(** X8: starting from the empty store, after calls in each of which the
    winner is listed, the wins of all rows add up to the number of calls
    and the games played of all rows add up to the number of listed names
    over all the calls. *)
Theorem totals_count_games cs :
  Forall winner_takes_part cs ->
  total_wins (run_calls cs init_db) = Z.of_nat (length cs)
  /\ total_games (run_calls cs init_db) = total_listings cs.
Proof.
  intros Hcs.
  assert (forall d, unique_names d ->
            total_wins (run_calls cs d) = total_wins d + Z.of_nat (length cs)
            /\ total_games (run_calls cs d)
               = total_games d + total_listings cs) as Hgen.
  { induction Hcs as [|c cs Hc Hcs IH]; intros d Hu.
    - simpl. unfold total_listings. simpl. lia.
    - unfold run_calls in *. cbn [fold_left].
      destruct (IH (run_call d c)) as [-> ->].
      { by apply unique_record_game_result. }
      destruct (totals_record_game_result (call_now c) (call_winner c)
                  (call_participants c) d Hu Hc) as [Hw Hg].
      unfold run_call. rewrite Hw, Hg. cbn [length total_listings fold_right].
      fold (total_listings cs). lia. }
  destruct (Hgen init_db) as [-> ->]; [apply NoDup_nil_2|]. done.
Qed.

Lemma totals_count_games_witness :
  Forall winner_takes_part two_games
  /\ total_wins (run_calls two_games init_db) = Z.of_nat (length two_games)
  /\ total_games (run_calls two_games init_db) = total_listings two_games.
Proof.
  assert (Forall winner_takes_part two_games) as H1.
  { repeat first [apply Forall_nil_2 | apply Forall_cons_2];
      unfold winner_takes_part; compute_done. }
  split; [exact H1|].
  exact (totals_count_games two_games H1).
Defined.

End Store_frame.

(** * More on the ranked query *)

Lemma str_leb_antisym s t :
  str_leb s t = true -> str_leb t s = true -> s = t.
Proof.
  revert t. induction s as [|c s IH]; intros [|d t]; simpl; try done.
  rewrite !orb_true_iff, !andb_true_iff, !N.ltb_lt, !N.eqb_eq.
  intros [Hcd|[-> Hst]] [Hdc|[Heq Hts]]; try lia.
  f_equal. by apply IH.
Qed.

Lemma same_name_same_row (l : list Player.t) x y :
  NoDup (Player.name <$> l) -> x ∈ l -> y ∈ l ->
  Player.name x = Player.name y -> x = y.
Proof.
  induction l as [|r l IH]; intros Hnd Hx Hy Hxy.
  - by apply elem_of_nil in Hx.
  - rewrite fmap_cons in Hnd. apply NoDup_cons in Hnd as [Hr Hnd].
    apply elem_of_cons in Hx as [->|Hx]; apply elem_of_cons in Hy as [->|Hy].
    + done.
    + exfalso. apply Hr. rewrite Hxy. by apply list_elem_of_fmap_2.
    + exfalso. apply Hr. rewrite <- Hxy. by apply list_elem_of_fmap_2.
    + by apply IH.
Qed.

Lemma ranking_unique (l1 l2 : list Player.t) :
  NoDup (Player.name <$> l1) -> l1 ≡ₚ l2 ->
  merge_sort rank l1 = merge_sort rank l2.
Proof.
  intros Hnd Hperm.
  apply (StronglySorted_unique_strong rank).
  - intros x y Hx Hy Hxy Hyx.
    rewrite merge_sort_Permutation in Hx, Hy.
    rewrite <- ?Hperm in Hy. apply (same_name_same_row l1); [done..|].
    apply rank_spec in Hxy, Hyx.
    destruct Hxy as [?|[? ?]], Hyx as [?|[? ?]]; try lia.
    by apply str_leb_antisym.
  - apply StronglySorted_merge_sort; apply _.
  - apply StronglySorted_merge_sort; apply _.
  - by rewrite !merge_sort_Permutation.
Qed.

Section Ranking.
Context `{SqlReal}.

(** X9: on a table with unique names the rows that [top_scoreboard]
    returns do not depend on the order in which the table stores its
    rows. *)
Theorem top_scoreboard_ignores_row_order limit d d' :
  unique_names d ->
  players_table d ≡ₚ players_table d' ->
  (top_scoreboard limit d).1 = (top_scoreboard limit d').1.
Proof.
  intros Hu Hperm. unfold top_scoreboard.
  destruct ((limit <? - 2 ^ 63) || (2 ^ 63 - 1 <? limit)); [done|].
  cbn [fst]. by rewrite (ranking_unique _ _ Hu Hperm).
Qed.

(** X10: with a negative limit, or a limit of at least the number of
    stored rows, [top_scoreboard] returns one result row for each stored
    row, and leaves the store unchanged. *)
Theorem top_scoreboard_lists_everyone limit d :
  - 2 ^ 63 <= limit < 2 ^ 63 ->
  limit < 0 \/ Z.of_nat (length (players_table d)) <= limit ->
  exists rows,
    top_scoreboard limit d = (Return rows, d)
    /\ rows ≡ₚ select_row <$> players_table d
    /\ Row.name <$> rows ≡ₚ names d.
Proof.
  intros [Hlo Hhi] Hall.
  exists (select_row <$> merge_sort rank (players_table d)).
  assert (sql_limit limit (merge_sort rank (players_table d))
          = merge_sort rank (players_table d)) as Hlim.
  { unfold sql_limit. destruct (limit <? 0) eqn:E; [done|].
    apply Z.ltb_ge in E. apply take_ge.
    rewrite merge_sort_Permutation. lia. }
  split; [|split].
  - unfold top_scoreboard. rewrite Hlim.
    assert ((limit <? - 2 ^ 63) = false) as -> by (apply Z.ltb_ge; lia).
    assert ((2 ^ 63 - 1 <? limit) = false) as -> by (apply Z.ltb_ge; lia).
    done.
  - by rewrite merge_sort_Permutation.
  - rewrite <- list_fmap_compose. unfold names.
    rewrite merge_sort_Permutation. done.
Qed.

(** X11: the limit of [top_scoreboard] drops rows from the bottom of the
    ranking only: no dropped row has more wins than a returned row. *)
Theorem top_scoreboard_keeps_the_best limit d :
  0 <= limit < 2 ^ 63 ->
  exists kept dropped,
    top_scoreboard limit d = (Return (select_row <$> kept), d)
    /\ kept ++ dropped ≡ₚ players_table d
    /\ forall x y, x ∈ kept -> y ∈ dropped ->
         Player.wins y <= Player.wins x.
Proof.
  intros [Hlo Hhi].
  set (ranked := merge_sort rank (players_table d)).
  exists (take (Z.to_nat limit) ranked), (drop (Z.to_nat limit) ranked).
  split; [|split].
  - unfold top_scoreboard, sql_limit.
    assert ((limit <? - 2 ^ 63) = false) as -> by (apply Z.ltb_ge; lia).
    assert ((2 ^ 63 - 1 <? limit) = false) as -> by (apply Z.ltb_ge; lia).
    assert ((limit <? 0) = false) as -> by (apply Z.ltb_ge; lia).
    done.
  - rewrite take_drop. apply merge_sort_Permutation.
  - intros x y Hx Hy.
    assert (StronglySorted rank ranked) as Hs
      by (apply StronglySorted_merge_sort; apply _).
    rewrite <- (take_drop (Z.to_nat limit) ranked) in Hs.
    pose proof (StronglySorted_app_1_elem_of _ _ _ _ _ Hs Hx Hy) as Hr.
    apply rank_spec in Hr. lia.
Qed.

End Ranking.

Lemma top_scoreboard_ignores_row_order_witness :
  let now := str "2024-01-01T00:00:00" in
  (unique_names (sample_table now)
   /\ players_table (sample_table now) ≡ₚ players_table (shuffled_table now))
  /\ (@top_scoreboard exact_arith 50 (sample_table now)).1
     = (@top_scoreboard exact_arith 50 (shuffled_table now)).1.
Proof.
  intros now.
  assert (unique_names (sample_table now)) as H1
    by (unfold unique_names; compute_done).
  assert (players_table (sample_table now)
          ≡ₚ players_table (shuffled_table now)) as H2.
  { exact (Permutation_app_comm
             [Player.mk 1 (str "A") 3 4 now now;
              Player.mk 2 (str "B") 3 3 now now]
             [Player.mk 3 (str "C") 5 9 now now]). }
  split; [exact (conj H1 H2)|].
  exact (@top_scoreboard_ignores_row_order exact_arith 50 (sample_table now)
           (shuffled_table now) H1 H2).
Defined.

Lemma top_scoreboard_lists_everyone_witness :
  let d := sample_table (str "2024-01-01T00:00:00") in
  (- 2 ^ 63 <= -1 < 2 ^ 63
   /\ (-1 < 0 \/ Z.of_nat (length (players_table d)) <= -1))
  /\ exists rows,
       @top_scoreboard exact_arith (-1) d = (Return rows, d)
       /\ rows ≡ₚ @select_row exact_arith <$> players_table d
       /\ Row.name <$> rows ≡ₚ names d.
Proof.
  intros d.
  assert (- 2 ^ 63 <= -1 < 2 ^ 63) as H1 by lia.
  assert (-1 < 0 \/ Z.of_nat (length (players_table d)) <= -1) as H2
    by (left; lia).
  split; [exact (conj H1 H2)|].
  exact (@top_scoreboard_lists_everyone exact_arith (-1) d H1 H2).
Defined.

Lemma top_scoreboard_keeps_the_best_witness :
  let d := sample_table (str "2024-01-01T00:00:00") in
  0 <= 2 < 2 ^ 63
  /\ exists kept dropped,
       @top_scoreboard exact_arith 2 d
         = (Return (@select_row exact_arith <$> kept), d)
       /\ kept ++ dropped ≡ₚ players_table d
       /\ forall x y, x ∈ kept -> y ∈ dropped ->
            Player.wins y <= Player.wins x.
Proof.
  intros d.
  assert (0 <= 2 < 2 ^ 63) as H1 by lia.
  split; [exact H1|].
  exact (@top_scoreboard_keeps_the_best exact_arith 2 d H1).
Defined.

(** * More on the administrative routes *)

Lemma find_player_delete_by_name n m d :
  find_player m (delete_by_name n d) =
  if decide (m = n) then None else find_player m d.
Proof.
  unfold find_player, delete_by_name. simpl.
  induction (players_table d) as [|r l IH]; simpl.
  - by destruct (decide (m = n)).
  - destruct (has_name n r) eqn:En; simpl.
    + rewrite IH. apply has_name_true in En.
      destruct (decide (m = n)) as [->|Hne]; [done|].
      destruct (has_name m r) eqn:Em; [|done].
      apply has_name_true in Em. congruence.
    + destruct (has_name m r) eqn:Em; [|done].
      apply has_name_true in Em. apply has_name_false in En.
      destruct (decide (m = n)); [congruence | done].
Qed.

Lemma unique_delete_by_name n d :
  unique_names d -> unique_names (delete_by_name n d).
Proof.
  unfold unique_names, names, delete_by_name. simpl.
  induction (players_table d) as [|r l IH]; simpl; [done|].
  intros [Hr Hnd]%NoDup_cons. destruct (negb (has_name n r)); [|auto].
  rewrite fmap_cons. apply NoDup_cons. split; [|auto].
  intros Hin. apply Hr. apply list_elem_of_fmap in Hin as (x & -> & Hx).
  apply list_elem_of_fmap_2. apply list_elem_of_In in Hx.
  apply filter_In in Hx as [Hx _]. by apply list_elem_of_In.
Qed.

Lemma require_admin_passes tok req w :
  tok <> [] -> supplied_token req = Some tok ->
  require_admin (Some tok) req w = (Return tt, w).
Proof.
  intros Htok Hsup. unfold require_admin. rewrite Hsup.
  rewrite bool_decide_eq_true_2 by done.
  by destruct tok.
Qed.

(** X12: with the configured token supplied, [admin_delete_player]
    answers 400 when the trimmed [name] parameter is empty; otherwise it
    deletes the row of that trimmed name and no other, keeps the names
    unique and leaves the session untouched. *)
Theorem admin_delete_player_removes_one tok req w :
  tok <> [] -> supplied_token req = Some tok ->
  let name := strip (default [] (or_else (args_name req) (Some []))) in
  (name = [] ->
   admin_delete_player (Some tok) req w = (Raise (Abort 400), w))
  /\ (name <> [] ->
      exists body w',
        admin_delete_player (Some tok) req w = (Return (Body body), w')
        /\ sess w' = sess w /\ recorded w' = recorded w
        /\ find_player name (db w') = None
        /\ (forall m, m <> name ->
              find_player m (db w') = find_player m (db w))
        /\ (unique_names (db w) -> unique_names (db w'))).
Proof.
  intros Htok Hsup name.
  pose proof (require_admin_passes tok req w Htok Hsup) as Hreq.
  split.
  - intros Hname. unfold admin_delete_player.
    cbv beta delta [mbind M_bind]. rewrite Hreq. fold name. by rewrite Hname.
  - intros Hname. unfold admin_delete_player.
    cbv beta delta [mbind M_bind]. rewrite Hreq. fold name.
    destruct name as [|c name'] eqn:E; [done|]. simpl.
    eexists _, _. split; [reflexivity|]. simpl.
    split; [done|]. split; [done|]. split; [|split].
    + rewrite find_player_delete_by_name. by rewrite decide_True.
    + intros m Hm. rewrite find_player_delete_by_name. by rewrite decide_False.
    + apply unique_delete_by_name.
Qed.

Lemma admin_delete_player_removes_one_witness :
  (str "s3cret" <> [] /\ supplied_token secret_request = Some (str "s3cret")
   /\ str "A" <> [])
  /\ exists body w',
       admin_delete_player (Some (str "s3cret")) secret_request stored_world
         = (Return (Body body), w')
       /\ sess w' = sess stored_world
       /\ recorded w' = recorded stored_world
       /\ find_player (str "A") (db w') = None
       /\ (forall m, m <> str "A" ->
             find_player m (db w') = find_player m (db stored_world))
       /\ (unique_names (db stored_world) -> unique_names (db w')).
Proof.
  assert (str "s3cret" <> []) as H1 by (vm_compute; discriminate).
  assert (supplied_token secret_request = Some (str "s3cret")) as H2
    by reflexivity.
  assert (str "A" <> []) as H3 by (vm_compute; discriminate).
  split; [exact (conj H1 (conj H2 H3))|].
  exact (proj2 (admin_delete_player_removes_one (str "s3cret") secret_request
                  stored_world H1 H2) H3).
Defined.

(** X13: with the configured token supplied, [admin_reset] empties the
    table and leaves the session untouched; the next recorded game counts
    from zero for every name. *)
Theorem admin_reset_starts_afresh tok req w :
  tok <> [] -> supplied_token req = Some tok ->
  exists body w',
    admin_reset (Some tok) req w = (Return (Body body), w')
    /\ sess w' = sess w
    /\ players_table (db w') = []
    /\ forall now winner ps n,
         games_of n (record_game_result now winner ps (db w'))
           = Z.of_nat (occurrences n ps)
         /\ wins_of n (record_game_result now winner ps (db w'))
            = if bool_decide (n = winner /\ n ∈ ps) then 1 else 0.
Proof.
  intros Htok Hsup.
  pose proof (require_admin_passes tok req w Htok Hsup) as Hreq.
  unfold admin_reset. cbv beta delta [mbind M_bind]. rewrite Hreq. simpl.
  eexists _, _. split; [reflexivity|]. simpl. split; [done|]. split; [done|].
  intros now winner ps n.
  rewrite games_of_record_game_result, wins_of_record_game_result.
  split; [done|]. simpl. erewrite bool_decide_ext; [done|].
  unfold names. simpl. rewrite elem_of_nil. tauto.
Qed.

Lemma admin_reset_starts_afresh_witness :
  (str "s3cret" <> [] /\ supplied_token secret_request = Some (str "s3cret"))
  /\ exists body w',
       admin_reset (Some (str "s3cret")) secret_request stored_world
         = (Return (Body body), w')
       /\ sess w' = sess stored_world
       /\ players_table (db w') = []
       /\ forall now winner ps n,
            games_of n (record_game_result now winner ps (db w'))
              = Z.of_nat (occurrences n ps)
            /\ wins_of n (record_game_result now winner ps (db w'))
               = if bool_decide (n = winner /\ n ∈ ps) then 1 else 0.
Proof.
  assert (str "s3cret" <> []) as H1 by (vm_compute; discriminate).
  assert (supplied_token secret_request = Some (str "s3cret")) as H2
    by reflexivity.
  split; [exact (conj H1 H2)|].
  exact (admin_reset_starts_afresh (str "s3cret") secret_request
           stored_world H1 H2).
Defined.

(** * More on the question import *)

Lemma lstrip_suffix s : exists pre, s = pre ++ lstrip s.
Proof.
  induction s as [|c s [pre IH]]; simpl; [by exists []|].
  destruct (isspace c).
  - exists (c :: pre). simpl. by f_equal.
  - by exists [].
Qed.

Lemma lstrip_head s c s' : lstrip s = c :: s' -> isspace c = false.
Proof.
  induction s as [|d s IH]; simpl; [done|].
  destruct (isspace d) eqn:E; [done|]. by intros [= <- _].
Qed.

Lemma lstrip_id c s : isspace c = false -> lstrip (c :: s) = c :: s.
Proof. intros E. simpl. by rewrite E. Qed.

Lemma last_rev (s : pystr) d c t :
  rev s = c :: t -> List.last s d = c.
Proof.
  intros Hrev. assert (s = rev t ++ [c]) as ->.
  { rewrite <- (rev_involutive s), Hrev. done. }
  apply last_last.
Qed.

Lemma trimmed_inv s :
  trimmed s = true ->
  exists c s' e t,
    s = c :: s' /\ rev s = e :: t
    /\ isspace c = false /\ isspace e = false.
Proof.
  destruct s as [|c s']; [done|]. unfold trimmed.
  intros [Hc He]%andb_true_iff.
  destruct (rev (c :: s')) as [|e t] eqn:Hrev.
  { apply (f_equal (@length N)) in Hrev. rewrite length_rev in Hrev. done. }
  exists c, s', e, t. rewrite (last_rev _ c e t Hrev) in He.
  repeat split; try done; by apply negb_true_iff.
Qed.

Lemma strip_trimmed s : trimmed s = true -> strip s = s.
Proof.
  intros (c & s' & e & t & -> & Hrev & Hc & He)%trimmed_inv.
  unfold strip, rstrip. rewrite lstrip_id by done.
  rewrite Hrev, lstrip_id by done. by rewrite <- Hrev, rev_involutive.
Qed.

Lemma trimmed_strip s : nonempty (strip s) = true -> trimmed (strip s) = true.
Proof.
  unfold strip, rstrip. intros Hne.
  destruct (lstrip_suffix (rev (lstrip s))) as [pre Hpre].
  set (y := lstrip (rev (lstrip s))) in *.
  destruct y as [|e y'] eqn:Hy; [done|].
  pose proof (lstrip_head _ _ _ Hy) as He.
  assert (lstrip s = rev (e :: y') ++ rev pre) as Hx.
  { rewrite <- (rev_involutive (lstrip s)), Hpre. by rewrite rev_app_distr. }
  destruct (rev (e :: y')) as [|c z] eqn:Hz; [done|].
  rewrite <- app_comm_cons in Hx. pose proof (lstrip_head _ _ _ Hx) as Hc.
  unfold trimmed.
  rewrite (last_rev (c :: z) c e y'); [by rewrite Hc, He|].
  by rewrite <- Hz, rev_involutive.
Qed.

(** X14: every item that [parse_csv_text] returns has a question and an
    answer that are non-empty and neither start nor end with
    whitespace. *)
Theorem parse_csv_text_items_trimmed text items it :
  parse_csv_text text = Return items -> it ∈ items ->
  trimmed (Question.q it) = true /\ trimmed (Question.a it) = true.
Proof.
  unfold parse_csv_text. cbv zeta.
  destruct (negb (nonempty (strip text))).
  { intros [= <-] Hin. by apply elem_of_nil in Hin. }
  destruct (DictReader (strip text)) as [rows|e]; [|done].
  rewrite collect_items. simpl. intros [= <-] Hin.
  apply list_elem_of_omap in Hin as (row & _ & Hitem).
  apply complete_item_Some in Hitem as (Hq & Ha & ->). simpl.
  unfold column in *. split; by apply trimmed_strip.
Qed.

Lemma parse_csv_text_items_trimmed_witness :
  (parse_csv_text sample_import = Return two_items
   /\ Question.mk (str "5+5") (str "10") ∈ two_items)
  /\ trimmed (str "5+5") = true /\ trimmed (str "10") = true.
Proof.
  assert (parse_csv_text sample_import = Return two_items) as H1
    by (vm_compute; reflexivity).
  assert (Question.mk (str "5+5") (str "10") ∈ two_items) as H2
    by (right; left).
  split; [exact (conj H1 H2)|].
  exact (parse_csv_text_items_trimmed sample_import two_items
           (Question.mk (str "5+5") (str "10")) H1 H2).
Defined.

(** ** Reading plain two-column text *)

Lemma plain_char_inv c :
  plain_char c = true ->
  is_newline c = false /\ (c =? COMMA)%N = false /\ (c =? QUOTE)%N = false
  /\ (c =? LF)%N = false.
Proof.
  unfold plain_char. rewrite !andb_true_iff, !negb_true_iff.
  intros [[Hn Hc] Hq]. repeat split; try done.
  unfold is_newline in Hn. by apply orb_false_iff in Hn as [? _].
Qed.

(** Lines *)
Lemma plain_no_line_feed s : plain s -> no_line_feed s.
Proof.
  intros Hs. eapply Forall_impl; [exact Hs|].
  intros c Hc. by destruct (plain_char_inv c Hc) as (_ & _ & _ & ?).
Qed.

Lemma readlines_from_no_line_feed cur s rest :
  no_line_feed s ->
  readlines_from cur (s ++ rest) = readlines_from (cur ++ s) rest.
Proof.
  intros Hs. revert cur. induction Hs as [|c s Hc Hs IH]; intros cur.
  - by rewrite app_nil_r.
  - simpl. rewrite Hc, IH. by rewrite <- app_assoc.
Qed.

Lemma readlines_lines cur ls :
  cur <> [] -> Forall (fun l => no_line_feed l /\ l <> []) ls ->
  readlines_from cur (concat ((fun l => LF :: l) <$> ls)) = lines_of cur ls.
Proof.
  intros Hcur Hls. revert cur Hcur.
  induction Hls as [|l ls [Hl Hne] Hls IH]; intros cur Hcur.
  - simpl. by destruct cur.
  - rewrite fmap_cons. cbn [concat lines_of]. cbn [app readlines_from].
    rewrite N.eqb_refl. f_equal.
    rewrite (readlines_from_no_line_feed [] l) by done. simpl. by apply IH.
Qed.

(** One line *)
Lemma parse_line_in_field s rest fs fld :
  plain s ->
  Z.of_nat (length fld) + Z.of_nat (length s) <= field_limit ->
  parse_line (mkreader IN_FIELD fs fld) (s ++ rest)
  = parse_line (mkreader IN_FIELD fs (fld ++ s)) rest.
Proof.
  intros Hs. revert fld. induction Hs as [|c s Hc Hs IH]; intros fld Hlen.
  - by rewrite app_nil_r.
  - destruct (plain_char_inv c Hc) as (Hn & Hcm & _ & _).
    cbn [app parse_line]. unfold parse_process_char. cbn [state].
    rewrite Hn, Hcm. unfold parse_add_char. cbn [field fields].
    assert ((field_limit <=? Z.of_nat (length fld)) = false) as ->.
    { apply Z.leb_gt. simpl in Hlen. lia. }
    rewrite IH.
    + by rewrite <- app_assoc.
    + rewrite length_app. simpl in *. lia.
Qed.

Lemma parse_line_start_field st s rest fs :
  st = START_RECORD \/ st = START_FIELD ->
  plain s -> s <> [] -> Z.of_nat (length s) <= field_limit ->
  parse_line (mkreader st fs []) (s ++ rest)
  = parse_line (mkreader IN_FIELD fs s) rest.
Proof.
  intros Hst Hs Hne Hlen. destruct s as [|c s]; [done|].
  apply Forall_cons in Hs as [Hc Hs].
  destruct (plain_char_inv c Hc) as (Hn & Hcm & Hq & _).
  cbn [app parse_line]. unfold parse_process_char. cbn [state].
  assert (match st with
          | START_RECORD | START_FIELD => True | _ => False end) as Hst'
    by (by destruct Hst as [-> | ->]).
  destruct st; try done; rewrite ?Hn, Hq, Hcm; unfold parse_add_char;
    cbn [field fields length]; unfold field_limit;
    cbn [Z.of_nat Z.leb Z.compare];
    apply (parse_line_in_field s rest fs [c] Hs); simpl in *; lia.
Qed.

Lemma parse_line_two_fields f1 f2 tail :
  plain f1 -> f1 <> [] -> Z.of_nat (length f1) <= field_limit ->
  plain f2 -> f2 <> [] -> Z.of_nat (length f2) <= field_limit ->
  tail = [] \/ tail = [LF] ->
  parse_line parse_reset (f1 ++ COMMA :: f2 ++ tail)
  = Some (mkreader START_RECORD [f1; f2] []).
Proof.
  intros H1 N1 L1 H2 N2 L2 Htail. unfold parse_reset.
  rewrite parse_line_start_field by auto.
  cbn [app parse_line]. unfold parse_process_char at 1. cbn [state].
  change (is_newline COMMA) with false. change (COMMA =? COMMA)%N with true.
  cbv iota. unfold parse_save_field. cbn [fields field app].
  rewrite parse_line_start_field by auto.
  destruct Htail as [-> | ->]; reflexivity.
Qed.

(** All the records *)
Lemma reader_rows_lines (cur : pystr * pystr) (ls : list (pystr * pystr)) :
  Forall (fun l => plain l.1 /\ l.1 <> [] /\ Z.of_nat (length l.1) <= field_limit
                   /\ plain l.2 /\ l.2 <> []
                   /\ Z.of_nat (length l.2) <= field_limit) (cur :: ls) ->
  reader_rows parse_reset
    (lines_of (cur.1 ++ COMMA :: cur.2)
              ((fun l => l.1 ++ COMMA :: l.2) <$> ls))
  = Some ((fun l => [l.1; l.2]) <$> cur :: ls).
Proof.
  revert cur. induction ls as [|l ls IH]; intros cur Hall;
    apply Forall_cons in Hall as [(H1 & N1 & L1 & H2 & N2 & L2) Hls].
  - cbn [fmap list_fmap lines_of reader_rows].
    pose proof (parse_line_two_fields cur.1 cur.2 [] H1 N1 L1 H2 N2 L2
                  (or_introl eq_refl)) as Hp.
    rewrite app_nil_r in Hp. rewrite Hp. reflexivity.
  - rewrite fmap_cons. cbn [lines_of reader_rows].
    pose proof (parse_line_two_fields cur.1 cur.2 [LF] H1 N1 L1 H2 N2 L2
                  (or_intror eq_refl)) as Hp.
    rewrite <- !app_assoc. cbn [app] in *. rewrite Hp.
    cbn [state fields]. rewrite bool_decide_eq_true_2 by done.
    cbn beta.
    etrans; [apply (f_equal (fmap (cons [cur.1; cur.2]))); exact (IH l Hls)|].
    reflexivity.
Qed.

(** The whole text *)
Lemma dict_get_two hq ha qv av k :
  dict_get [(hq, Some qv); (ha, Some av)] k =
  if bool_decide (ha = k) then Some av
  else if bool_decide (hq = k) then Some qv else None.
Proof. unfold dict_get. simpl. by repeat case_bool_decide. Qed.

Lemma trimmed_nonempty s : trimmed s = true -> nonempty s = true.
Proof. by destruct s. Qed.

Lemma trimmed_nonempty_ne s : trimmed s = true -> s <> [].
Proof. by destruct s. Qed.

Lemma or_else_Some x y : nonempty x = true -> or_else (Some x) y = Some x.
Proof. intros Hx. unfold or_else. simpl. by rewrite Hx. Qed.

Lemma or_else_None y : or_else None y = y.
Proof. done. Qed.

Lemma complete_item_two hq ha qv av :
  (hq = str "q" /\ ha = str "a")
  \/ (hq = str "question" /\ ha = str "answer") ->
  trimmed qv = true -> trimmed av = true ->
  complete_item [(hq, Some qv); (ha, Some av)] = Some (Question.mk qv av).
Proof.
  intros Hh Hq Ha.
  pose proof (trimmed_nonempty _ Hq) as Nq.
  pose proof (trimmed_nonempty _ Ha) as Na.
  unfold complete_item, column. rewrite !dict_get_two.
  destruct Hh as [[-> ->] | [-> ->]].
  - change (bool_decide (str "a" = str "q")) with false.
    change (bool_decide (str "q" = str "q")) with true.
    change (bool_decide (str "a" = str "a")) with true.
    cbv iota. rewrite !or_else_Some by done. simpl default.
    rewrite !strip_trimmed by done. by rewrite Nq, Na.
  - change (bool_decide (str "answer" = str "q")) with false.
    change (bool_decide (str "question" = str "q")) with false.
    change (bool_decide (str "answer" = str "question")) with false.
    change (bool_decide (str "question" = str "question")) with true.
    change (bool_decide (str "answer" = str "a")) with false.
    change (bool_decide (str "question" = str "a")) with false.
    change (bool_decide (str "answer" = str "answer")) with true.
    cbv iota. rewrite !or_else_None, !or_else_Some by done. simpl default.
    rewrite !strip_trimmed by done. by rewrite Nq, Na.
Qed.

Lemma strip_between s mid t :
  trimmed s = true -> trimmed t = true ->
  strip (s ++ mid ++ t) = s ++ mid ++ t.
Proof.
  intros (c & s' & _ & _ & -> & _ & Hc & _)%trimmed_inv
         (_ & _ & e & t' & _ & Hrev & _ & He)%trimmed_inv.
  unfold strip, rstrip. rewrite <- app_comm_cons, lstrip_id by done.
  rewrite app_comm_cons, app_assoc.
  set (W := (c :: s') ++ mid). rewrite rev_app_distr, Hrev.
  rewrite <- app_comm_cons, lstrip_id by done.
  rewrite app_comm_cons, <- Hrev, <- rev_app_distr.
  apply rev_involutive.
Qed.

Lemma csv_of_questions_lines hq ha items :
  csv_of_questions hq ha items =
  (hq ++ COMMA :: ha)
  ++ concat ((fun l => LF :: l)
               <$> ((fun l => l.1 ++ COMMA :: l.2)
                      <$> (field_pair <$> items))).
Proof.
  unfold csv_of_questions. rewrite <- !list_fmap_compose.
  rewrite <- !app_assoc. done.
Qed.

Lemma csv_of_questions_trimmed hq ha items :
  trimmed hq = true -> trimmed ha = true ->
  Forall (fun it => plain_field (Question.q it)
                    /\ plain_field (Question.a it)) items ->
  strip (csv_of_questions hq ha items) = csv_of_questions hq ha items.
Proof.
  intros Hq Ha Hitems. unfold csv_of_questions.
  destruct items as [|it items _] using rev_ind.
  - simpl. rewrite app_nil_r. by apply (strip_between hq [COMMA] ha).
  - apply Forall_app in Hitems as [_ Hit].
    apply Forall_singleton in Hit as [_ (Hta & _)].
    rewrite fmap_app, concat_app. simpl. rewrite app_nil_r.
    pose proof (strip_between hq
                  ([COMMA] ++ ha
                   ++ concat ((fun it => LF :: Question.q it ++ [COMMA]
                                           ++ Question.a it) <$> items)
                   ++ LF :: Question.q it ++ [COMMA])
                  (Question.a it) Hq Hta) as Hs.
    rewrite <- ?app_assoc in Hs. simpl in Hs. rewrite <- ?app_assoc in Hs.
    simpl in Hs. rewrite <- ?app_assoc. simpl. exact Hs.
Qed.

(** X15: round trip of the import format: a text made of the header
    [q,a] (or [question,answer]) and one line [q,a] per item is read back
    as exactly these items, in order, when every field is trimmed,
    non-empty, within the reader's field limit and free of commas, quotes
    and line breaks. *)
Theorem parse_csv_text_reads_plain_rows hq ha items :
  (hq = str "q" /\ ha = str "a")
  \/ (hq = str "question" /\ ha = str "answer") ->
  Forall (fun it => plain_field (Question.q it)
                    /\ plain_field (Question.a it)) items ->
  parse_csv_text (csv_of_questions hq ha items) = Return items.
Proof.
  intros Hh Hitems.
  assert (plain_field hq /\ plain_field ha) as [Hpq Hpa].
  { destruct Hh as [[-> ->] | [-> ->]]; split; split; try done;
      (split; [by repeat constructor | by vm_compute]). }
  destruct Hpq as (Htq & Hplq & Hlq). destruct Hpa as (Hta & Hpla & Hla).
  unfold parse_csv_text. cbv zeta.
  rewrite csv_of_questions_trimmed by done.
  assert (nonempty (csv_of_questions hq ha items) = true) as ->.
  { unfold csv_of_questions. by destruct hq. }
  cbv iota. simpl negb. cbv iota.
  assert (DictReader (csv_of_questions hq ha items)
          = Return ((fun it => [(hq, Some (Question.q it));
                                (ha, Some (Question.a it))]) <$> items))
    as ->.
  { unfold DictReader, readlines. rewrite csv_of_questions_lines.
    rewrite readlines_from_no_line_feed, app_nil_l.
    2:{ apply Forall_app. split; [by apply plain_no_line_feed|].
        apply Forall_cons. split; [done | by apply plain_no_line_feed]. }
    rewrite readlines_lines.
    2:{ by destruct hq. }
    2:{ apply Forall_fmap, Forall_fmap. eapply Forall_impl; [exact Hitems|].
        intros it [(_ & Hq1 & _) (_ & Ha1 & _)]. simpl. split.
        - apply Forall_app. split; [by apply plain_no_line_feed|].
          apply Forall_cons. split; [done | by apply plain_no_line_feed].
        - by destruct (Question.q it). }
    pose proof (reader_rows_lines (hq, ha) (field_pair <$> items)) as Hrows.
    cbn [fst snd] in Hrows. rewrite Hrows.
    2:{ apply Forall_cons. split.
        - simpl. repeat split; try done; by apply trimmed_nonempty_ne.
        - apply Forall_fmap. eapply Forall_impl; [exact Hitems|].
          intros it [(Hq0 & Hq1 & Hq2) (Ha0 & Ha1 & Ha2)]. simpl.
          repeat split; try done; by apply trimmed_nonempty_ne. }
    rewrite fmap_cons. f_equal. cbn [fst snd]. clear.
    induction items as [|it items IH]; [done|].
    rewrite !fmap_cons. cbn [List.filter]. simpl negb. cbv iota.
    rewrite fmap_cons, IH. reflexivity. }
  rewrite collect_items. simpl. f_equal.
  induction Hitems as [|it items [(Hq0 & _) (Ha0 & _)] Hitems IH]; [done|].
  rewrite fmap_cons. cbn [omap list_omap].
  rewrite (complete_item_two hq ha) by done.
  fold (@omap list _ _ _ complete_item). rewrite IH. by destruct it.
Qed.

Lemma parse_csv_text_reads_plain_rows_witness :
  ((str "question" = str "q" /\ str "answer" = str "a")
   \/ (str "question" = str "question" /\ str "answer" = str "answer"))
  /\ Forall (fun it => plain_field (Question.q it)
                       /\ plain_field (Question.a it)) two_items
  /\ parse_csv_text (csv_of_questions (str "question") (str "answer")
                       two_items) = Return two_items.
Proof.
  assert ((str "question" = str "q" /\ str "answer" = str "a")
          \/ (str "question" = str "question"
              /\ str "answer" = str "answer")) as H1
    by (right; split; reflexivity).
  assert (Forall (fun it => plain_field (Question.q it)
                            /\ plain_field (Question.a it)) two_items) as H2.
  { repeat first [apply Forall_nil_2 | apply Forall_cons_2];
      (split; (split; [reflexivity|]);
       (split; [repeat first [apply Forall_nil_2 | apply Forall_cons_2];
                reflexivity
               | by vm_compute])). }
  split; [exact H1|]. split; [exact H2|].
  exact (parse_csv_text_reads_plain_rows (str "question") (str "answer")
           two_items H1 H2).
Defined.

(** X16: when both submitted texts are accepted by the reader,
    [upload_questions] returns and touches nothing but the question pool
    (and the warnings): with no item found the session is unchanged;
    otherwise the pool becomes the first 300 entries of the old pool
    followed by the items of the file and then of the pasted text, so an
    old pool of at most 300 entries is kept as a prefix and a pool that
    already holds 300 entries does not change. *)
Theorem upload_questions_merges file_text pasted_field w from_file from_paste :
  match file_text with
  | Some data => parse_csv_text data
  | None => Return []
  end = Return from_file ->
  (let pasted := strip (default [] pasted_field) in
   if nonempty pasted then parse_csv_text pasted else Return [])
  = Return from_paste ->
  let old := default [] (questions (sess w)) in
  let new_items := from_file ++ from_paste in
  exists w',
    upload_questions file_text pasted_field w = (Return redirect_index, w')
    /\ db w' = db w /\ recorded w' = recorded w
    /\ players (sess w') = players (sess w)
    /\ turn (sess w') = turn (sess w)
    /\ awaiting_answer (sess w') = awaiting_answer (sess w)
    /\ current_question (sess w') = current_question (sess w)
    /\ last_roll (sess w') = last_roll (sess w)
    /\ (new_items = [] -> sess w' = sess w)
    /\ (new_items <> [] ->
        exists pool,
          questions (sess w') = Some pool
          /\ pool = take 300 (old ++ new_items)
          /\ pool <> []
          /\ (length pool <= 300)%nat
          /\ ((length old <= 300)%nat -> old `prefix_of` pool)
          /\ ((300 <= length old)%nat -> pool = take 300 old)).
Proof.
  intros Hfile Hpaste old new_items.
  assert (submitted_items file_text pasted_field = Return new_items) as Hsub.
  { unfold submitted_items. rewrite Hfile. cbv zeta in *. by rewrite Hpaste. }
  rewrite (upload_questions_returns _ _ _ _ Hsub).
  eexists. split; [reflexivity|].
  destruct new_items as [|it its] eqn:Hnew.
  - by repeat split.
  - cbn [db recorded sess set_questions players turn awaiting_answer
         current_question last_roll questions].
    repeat split; try done.
    intros _. eexists. split; [reflexivity|].
    change (Z.to_nat MAX_QUESTIONS_IN_SESSION) with 300%nat. fold old.
    split; [done|]. split.
    { destruct old; done. }
    split; [rewrite length_take; lia|]. split.
    + intros Hlen. rewrite take_app_ge by done.
      by apply prefix_app_r.
    + intros Hlen. rewrite take_app_le by done. done.
Qed.

Lemma upload_questions_merges_witness :
  let new_items := [Question.mk (str "2+2") (str "4");
                    Question.mk (str "5+5") (str "10")] in
  (@Return (list Question.t) [] = Return []
   /\ (let pasted := strip (default [] (Some sample_import)) in
       if nonempty pasted then parse_csv_text pasted else Return [])
      = Return new_items)
  /\ exists w',
       upload_questions None (Some sample_import) started_world
         = (Return redirect_index, w')
       /\ questions (sess w') = Some (DEFAULT_QUESTIONS ++ new_items)
       /\ players (sess w') = players (sess started_world).
Proof.
  intros new_items.
  assert ((let pasted := strip (default [] (Some sample_import)) in
           if nonempty pasted then parse_csv_text pasted else Return [])
          = Return new_items) as H2 by (vm_compute; reflexivity).
  split; [exact (conj eq_refl H2)|].
  destruct (upload_questions_merges None (Some sample_import) started_world
              [] new_items eq_refl H2)
    as (w' & Hrun & _ & _ & Hps & _ & _ & _ & _ & _ & Hpool).
  exists w'. split; [exact Hrun|]. split; [|exact Hps].
  destruct Hpool as (pool & Hq & -> & _); [discriminate|]. exact Hq.
Defined.

Section Index_properties.
Context `{SqlReal}.

(** X17: on a session that holds the keys [players], [turn] and
    [awaiting_answer], [index] changes nothing and shows the session as it
    is; it shows a winner exactly when some token stands on or beyond
    [BOARD_SIZE], and a scoreboard of at most 50 rows, those of
    [top_scoreboard 50]. *)
Theorem index_shows_session w ps t aw :
  players (sess w) = Some ps ->
  turn (sess w) = Some t ->
  awaiting_answer (sess w) = Some aw ->
  exists pg,
    index w = (Return pg, w)
    /\ page_players pg = ps /\ page_turn pg = t
    /\ page_awaiting_answer pg = aw
    /\ page_current_question pg = mjoin (current_question (sess w))
    /\ page_last_roll pg = mjoin (last_roll (sess w))
    /\ page_winner pg = winner (sess w)
    /\ (page_winner pg <> None <->
        exists p, p ∈ ps /\ BOARD_SIZE <= Token.pos p)
    /\ (top_scoreboard 50 (db w)).1 = Return (page_scoreboard pg)
    /\ (length (page_scoreboard pg) <= 50)%nat.
Proof.
  intros Hps Ht Haw.
  destruct (index_reads w ps t aw Hps Ht Haw)
    as (pg & Hrun & H1 & H2 & H3 & H4 & H5 & H6 & H7 & H8).
  exists pg. repeat split; try done.
  - rewrite H6. unfold winner. rewrite Hps. simpl.
    destruct (find _ ps) as [p|] eqn:Hf; [|done]. intros _.
    apply find_some in Hf as [Hin Hp]. exists p.
    split; [by apply list_elem_of_In | by apply Z.leb_le].
  - intros (p & Hin & Hp). rewrite H6. unfold winner. rewrite Hps. simpl.
    destruct (find _ ps) as [p'|] eqn:Hf; [done|].
    apply list_elem_of_In in Hin.
    pose proof (find_none _ _ Hf _ Hin) as Hn. simpl in Hn.
    apply Z.leb_gt in Hn. lia.
Qed.

(** X18: [setup] does not create the key [awaiting_answer]: a setup with
    at least one name, sent on a session that was never initialised,
    returns, and the index page requested next raises [KeyError]; had the
    index page been requested first, it would have initialised the
    session. *)
Theorem index_after_bare_setup_raises f w :
  sess w = empty_session -> collect_names f <> [] ->
  exists w',
    setup f w = (Return redirect_index, w')
    /\ index w' = (Raise KeyError, w')
    /\ exists pg, index w = (Return pg, exec new_game w).
Proof.
  intros Hs Hf. destruct (collect_names f) as [|n ns] eqn:Hnames; [done|].
  destruct (setup_initializes f w n ns Hnames)
    as (w' & Hrun & Hps & Ht & Haw & _).
  exists w'. split; [done|]. split.
  - eapply index_key_error; [done|]. right. by rewrite Haw, Hs.
  - destruct (index_first_visit w) as (pg & Hpg & _); [by rewrite Hs|].
    by exists pg.
Qed.

End Index_properties.

Lemma index_shows_session_witness :
  let ps := [Token.mk (str "Al") 22; Token.mk (str "Bo") 3] in
  (players (sess near_finish) = Some ps
   /\ turn (sess near_finish) = Some 0
   /\ awaiting_answer (sess near_finish) = Some true)
  /\ exists pg,
       @index exact_arith near_finish = (Return pg, near_finish)
       /\ page_players pg = ps /\ page_turn pg = 0
       /\ page_awaiting_answer pg = true
       /\ page_current_question pg
          = mjoin (current_question (sess near_finish))
       /\ page_last_roll pg = mjoin (last_roll (sess near_finish))
       /\ page_winner pg = winner (sess near_finish)
       /\ (page_winner pg <> None <->
           exists p, p ∈ ps /\ BOARD_SIZE <= Token.pos p)
       /\ (@top_scoreboard exact_arith 50 (db near_finish)).1
          = Return (page_scoreboard pg)
       /\ (length (page_scoreboard pg) <= 50)%nat.
Proof.
  intros ps.
  assert (players (sess near_finish) = Some ps) as H1 by reflexivity.
  assert (turn (sess near_finish) = Some 0) as H2 by reflexivity.
  assert (awaiting_answer (sess near_finish) = Some true) as H3
    by reflexivity.
  split; [exact (conj H1 (conj H2 H3))|].
  exact (@index_shows_session exact_arith near_finish ps 0 true H1 H2 H3).
Defined.

Lemma index_after_bare_setup_raises_witness :
  (sess first_visit = empty_session /\ collect_names two_als <> [])
  /\ exists w',
       setup two_als first_visit = (Return redirect_index, w')
       /\ @index exact_arith w' = (Raise KeyError, w')
       /\ exists pg,
            @index exact_arith first_visit
              = (Return pg, exec new_game first_visit).
Proof.
  assert (sess first_visit = empty_session) as H1 by reflexivity.
  assert (collect_names two_als <> []) as H2 by (vm_compute; discriminate).
  split; [exact (conj H1 H2)|].
  exact (@index_after_bare_setup_raises exact_arith two_als first_visit
           H1 H2).
Defined.

(** X19: [setup] always returns and never touches the store, the random
    source or the pending roll, question and flag; without a name it only
    queues its warning; otherwise it places one token per collected name,
    in order, at position 0, with a name of 1 to 20 characters, at most
    four of them, sets the turn to 0 and queues no warning. *)
Theorem setup_builds_tokens f w :
  exists w',
    setup f w = (Return redirect_index, w')
    /\ db w' = db w /\ recorded w' = recorded w /\ rng w' = rng w
    /\ awaiting_answer (sess w') = awaiting_answer (sess w)
    /\ current_question (sess w') = current_question (sess w)
    /\ last_roll (sess w') = last_roll (sess w)
    /\ (collect_names f = [] ->
        sess w' = sess w
        /\ flashes w' = flashes w ++ [str "Enter at least one player name."])
    /\ (collect_names f <> [] ->
        exists ps,
          players (sess w') = Some ps
          /\ Token.name <$> ps = collect_names f
          /\ Forall (fun p => Token.pos p = 0
                              /\ (1 <= length (Token.name p) <= 20)%nat) ps
          /\ (1 <= length ps <= 4)%nat
          /\ turn (sess w') = Some 0
          /\ flashes w' = flashes w).
Proof.
  pose proof (collect_names_ok f) as Hok.
  pose proof (collect_names_length f) as Hlen.
  destruct (collect_names f) as [|n ns] eqn:Hnames.
  - rewrite setup_rejects_no_names by done. eexists. split; [done|].
    by repeat split.
  - destruct (setup_initializes f w n ns Hnames)
      as (w' & Hrun & Hps & Ht & Haw & Hcq & Hlr & Hfl).
    exists w'. split; [done|].
    assert (db w' = db w /\ recorded w' = recorded w /\ rng w' = rng w)
      as (Hdb & Hrec & Hrng).
    { unfold setup in Hrun. rewrite Hnames in Hrun.
      assert ((Z.of_nat (length (n :: ns)) =? 0) = false) as E1
        by (apply Z.eqb_neq; simpl; lia).
      assert ((MAX_PLAYERS <? Z.of_nat (length (n :: ns))) = false) as E2
        by (apply Z.ltb_ge; lia).
      rewrite E1, E2 in Hrun. destruct w as [s d g now fl rec].
      injection Hrun as <-. done. }
    repeat split; try done.
    intros _. eexists. split; [exact Hps|]. split; [|split; [|split]].
    + rewrite <- list_fmap_compose. apply list_fmap_id.
    + apply Forall_fmap. eapply Forall_impl; [exact Hok|].
      intros m [Hm1 Hm2]. simpl. split; [done|].
      destruct m; [done | simpl in *; lia].
    + rewrite length_fmap. unfold MAX_PLAYERS in Hlen. simpl in *. lia.
    + done.
Qed.

(** X20: a roll with players and no answer pending returns; it takes
    exactly two values from the random source, a die value from 1 to 6 and
    a question of the session's pool, stores both as pending and awaits an
    answer; players, turn, pool, store and warnings are unchanged. *)
Theorem roll_draws_die_and_question w ps :
  players (sess w) = Some ps -> ps <> [] ->
  truthy_flag (awaiting_answer (sess w)) = false ->
  questions (sess w) <> Some [] ->
  exists w' r q,
    roll w = (Return redirect_index, w')
    /\ 1 <= r <= 6
    /\ q ∈ default DEFAULT_QUESTIONS (questions (sess w))
    /\ last_roll (sess w') = Some (Some r)
    /\ current_question (sess w') = Some (Some q)
    /\ awaiting_answer (sess w') = Some true
    /\ players (sess w') = Some ps
    /\ turn (sess w') = turn (sess w)
    /\ questions (sess w') = questions (sess w)
    /\ db w' = db w /\ recorded w' = recorded w /\ flashes w' = flashes w
    /\ draws (rng w') = draws (rng w)
    /\ cursor (rng w') = S (S (cursor (rng w))).
Proof. apply roll_draws. Qed.

Lemma roll_draws_die_and_question_witness :
  let ps := [Token.mk (str "Al") 0; Token.mk (str "Al") 0] in
  (players (sess ready_world) = Some ps /\ ps <> []
   /\ truthy_flag (awaiting_answer (sess ready_world)) = false
   /\ questions (sess ready_world) <> Some [])
  /\ exists w' r q,
       roll ready_world = (Return redirect_index, w')
       /\ 1 <= r <= 6
       /\ q ∈ default DEFAULT_QUESTIONS (questions (sess ready_world))
       /\ last_roll (sess w') = Some (Some r)
       /\ current_question (sess w') = Some (Some q)
       /\ awaiting_answer (sess w') = Some true
       /\ players (sess w') = Some ps
       /\ turn (sess w') = turn (sess ready_world)
       /\ questions (sess w') = questions (sess ready_world)
       /\ db w' = db ready_world /\ recorded w' = recorded ready_world
       /\ flashes w' = flashes ready_world
       /\ draws (rng w') = draws (rng ready_world)
       /\ cursor (rng w') = S (S (cursor (rng ready_world))).
Proof.
  intros ps.
  assert (players (sess ready_world) = Some ps) as H1 by reflexivity.
  assert (ps <> []) as H2 by discriminate.
  assert (truthy_flag (awaiting_answer (sess ready_world)) = false) as H3
    by reflexivity.
  assert (questions (sess ready_world) <> Some []) as H4
    by (vm_compute; discriminate).
  split; [exact (conj H1 (conj H2 (conj H3 H4)))|].
  exact (roll_draws_die_and_question ready_world ps H1 H2 H3 H4).
Defined.
